(** * go-evepraisal: the composition root [evepraisal/app.go]

    A shallow embedding of [appMain] and [mustStartServers]: the refresh
    callback handed to the static fetcher (which swaps the type database
    and rebuilds the parser chain), the ledger of deferred releases, the
    listeners and their shutdown.  Packages of the repository keep their
    Go names as modules ([typedb], [parsers], [evepraisal]). *)

From Stdlib Require Import ZArith List Bool Lia.
From stdpp Require Import base option list gmap strings.

Set Default Proof Using "Type".

(** ** Package [typedb] *)

Module typedb.
(** [typedb.TypeDB] is an interface value: [nil], or a reference to a
    type database, identified here by the number of its generation. *)
Definition TypeDB : Type := option nat.
Definition nil : TypeDB := None.
End typedb.

(** ** Package [parsers] *)

Module parsers.
(** The values of type [parsers.Parser] that app.go puts in the chain:
    thirteen package-level parsers, and three constructors that close
    over the type database they are given. *)
#[warnings="-register-all"]
Inductive Parser : Type :=
| ParseKillmail
| ParseEFT
| ParseFitting
| ParseLootHistory
| ParsePI
| ParseViewContents
| ParseWallet
| ParseSurveyScan
| ParseContract
| ParseAssets
| ParseIndustry
| ParseCargoScan
| ParseDScan
| NewContextListingParser (typeDB : typedb.TypeDB)
| NewHeuristicParser (typeDB : typedb.TypeDB)
| NewContextMultiParser (typeDB : typedb.TypeDB) (parsers : list Parser).

(** The type databases a parser value closes over, outermost first. *)
Fixpoint bound (p : Parser) : list typedb.TypeDB :=
  match p with
  | NewContextListingParser t => [t]
  | NewHeuristicParser t => [t]
  | NewContextMultiParser t ps => t :: flat_map bound ps
  | _ => []
  end.
End parsers.

(** ** Package [evepraisal]: the shared [App] value *)

Module evepraisal.
(** The two fields of [evepraisal.App] that the refresh callback
    assigns.  [Parser] is [None] until the first assignment. *)
Record App : Type := mkApp {
  TypeDB : typedb.TypeDB;
  Parser : option parsers.Parser
}.

(** [app := &evepraisal.App{AppraisalDB: ..., PriceDB: ...}] leaves
    both fields at their zero value. *)
Definition zero : App := {| TypeDB := typedb.nil; Parser := None |}.
End evepraisal.

(** ** Effects of the refresh callback *)

Inductive Effect : Type :=
| AssignTypeDB (typeDB : typedb.TypeDB)
| AssignParser (p : parsers.Parser)
| CloseTypeDB (h : nat)
| Println (msg : string).

(** The shared store: the [App] the callback and the handlers alias, and
    the effects performed so far, oldest first. *)
Record World : Type := mkWorld {
  app : evepraisal.App;
  effects : list Effect
}.

Definition World0 : World := {| app := evepraisal.zero; effects := [] |}.

Definition is_close (e : Effect) : option nat :=
  match e with CloseTypeDB h => Some h | _ => None end.

(** Handles on which [Close] has been called, oldest first. *)
Definition closed (w : World) : list nat := omap is_close (effects w).

Definition emit (e : Effect) (w : World) : World :=
  {| app := app w; effects := effects w ++ [e] |}.

(** The chain of app.go:106-124, for the [typeDB] the callback received. *)
Definition parser_chain (typeDB : typedb.TypeDB) : list parsers.Parser :=
  [ parsers.ParseKillmail; parsers.ParseEFT; parsers.ParseFitting;
    parsers.ParseLootHistory; parsers.ParsePI; parsers.ParseViewContents;
    parsers.ParseWallet; parsers.ParseSurveyScan; parsers.ParseContract;
    parsers.ParseAssets; parsers.ParseIndustry; parsers.ParseCargoScan;
    parsers.ParseDScan;
    parsers.NewContextListingParser typeDB;
    parsers.NewHeuristicParser typeDB ].

Definition new_parser (typeDB : typedb.TypeDB) : parsers.Parser :=
  parsers.NewContextMultiParser typeDB (parser_chain typeDB).

(** Program points of the callback [func(typeDB typedb.TypeDB)] of
    app.go:103-131, named after the line about to run. *)
Inductive CallbackPC : Type :=
| Returned
| At104 (typeDB : typedb.TypeDB)
| At105 (typeDB oldTypeDB : typedb.TypeDB)
| At106 (typeDB oldTypeDB : typedb.TypeDB)
| At126 (typeDB oldTypeDB : typedb.TypeDB).

(** One statement of the callback. *)
Definition callback_step (pc : CallbackPC) (w : World) : CallbackPC * World :=
  match pc with
  | Returned => (Returned, w)
  | At104 typeDB =>
      (* oldTypeDB := app.TypeDB *)
      (At105 typeDB (evepraisal.TypeDB (app w)), w)
  | At105 typeDB oldTypeDB =>
      (* app.TypeDB = typeDB *)
      (At106 typeDB oldTypeDB,
       emit (AssignTypeDB typeDB)
         {| app := {| evepraisal.TypeDB := typeDB;
                      evepraisal.Parser := evepraisal.Parser (app w) |};
            effects := effects w |})
  | At106 typeDB oldTypeDB =>
      (* app.Parser = evepraisal.NewContextMultiParser(typeDB, ...) *)
      (At126 typeDB oldTypeDB,
       emit (AssignParser (new_parser typeDB))
         {| app := {| evepraisal.TypeDB := evepraisal.TypeDB (app w);
                      evepraisal.Parser := Some (new_parser typeDB) |};
            effects := effects w |})
  | At126 typeDB oldTypeDB =>
      (* if oldTypeDB != nil { log; oldTypeDB.Close(); log } *)
      (Returned,
       match oldTypeDB with
       | Some h =>
           emit (Println "closed old typedb")
             (emit (CloseTypeDB h) (emit (Println "closeing old typedb") w))
       | None => w
       end)
  end.

Fixpoint callback_steps (n : nat) (pc : CallbackPC) (w : World)
  : CallbackPC * World :=
  match n with
  | O => (pc, w)
  | S n' => let '(pc', w') := callback_step pc w in callback_steps n' pc' w'
  end.

(** A whole invocation of the callback: its four statements in a row. *)
Definition callback (typeDB : typedb.TypeDB) (w : World) : World :=
  snd (callback_steps 4 (At104 typeDB) w).

(** What an invocation does when the previous type database is [old]. *)
Definition close_old (old : typedb.TypeDB) : list Effect :=
  match old with
  | Some h => [Println "closeing old typedb"; CloseTypeDB h;
               Println "closed old typedb"]
  | None => []
  end.

(** The parser is bound to [t]: every type database it closes over is [t]. *)
Definition bound_to (t : typedb.TypeDB) (p : option parsers.Parser) : Prop :=
  match p with
  | Some p => Forall (fun t' => t' = t) (parsers.bound p)
  | None => True
  end.

(** ** Requests running while the callback runs *)

(** Type database handles reachable from an [App] value: the [TypeDB]
    field and whatever the [Parser] field closes over. *)
Definition handles (a : evepraisal.App) : list nat :=
  omap id (evepraisal.TypeDB a
           :: from_option parsers.bound [] (evepraisal.Parser a)).

(** A reader of the [App] sees one generation when the parser it finds
    there is bound to the type database it finds there. *)
Definition one_generation (a : evepraisal.App) : Prop :=
  bound_to (evepraisal.TypeDB a) (evepraisal.Parser a).

(** Modelled from the spec: the request handlers live in package web,
    outside app.go.  "An inbound request reads the current Snapshot
    reference once", at the start of the call, and works with what it
    read until it completes.  What it can read is the [App] that the
    callback assigns to.  [began_at] records where the callback stood at
    that moment; no step reads it. *)
Record Request : Type := mkRequest {
  seen : evepraisal.App;
  began_at : CallbackPC
}.

Record System : Type := mkSystem {
  world : World;
  refresher : CallbackPC;
  next_generation : nat;
  inflight : gmap nat Request
}.

Definition System0 : System :=
  {| world := World0; refresher := Returned; next_generation := 0;
     inflight := ∅ |}.

(** Modelled from the spec: the static fetcher (package staticdump,
    outside app.go) is one background task; each [Deliver] is an invocation of
    the callback with a newly built type database, whose generation
    number is the next one ("monotonically increasing").  [Tick] runs one
    statement of the callback; [Begin] and [Finish] start and complete a
    request.  Statements of the callback and requests interleave freely:
    app.go takes no lock around either.

    Two more steps come from app.go alone.  [Redeliver typeDB] is an
    invocation of the callback with any value of its parameter type:
    nil, or a type database handed over before.  [Return] is the
    end of the deferred call of lines 135-147, which runs when [appMain]
    returns: lines 141-146 close the current type database, if there is
    one. *)
Inductive Label : Type :=
| Deliver
| Tick
| Begin (id : nat)
| Finish (id : nat)
| Redeliver (typeDB : typedb.TypeDB)
| Return.

Definition step (l : Label) (s : System) : option System :=
  match l with
  | Deliver =>
      match refresher s with
      | Returned =>
          Some {| world := world s;
                  refresher := At104 (Some (next_generation s));
                  next_generation := S (next_generation s);
                  inflight := inflight s |}
      | _ => None
      end
  | Tick =>
      match refresher s with
      | Returned => None
      | pc =>
          let '(pc', w') := callback_step pc (world s) in
          Some {| world := w'; refresher := pc';
                  next_generation := next_generation s;
                  inflight := inflight s |}
      end
  | Begin id =>
      match inflight s !! id with
      | Some _ => None
      | None =>
          Some {| world := world s; refresher := refresher s;
                  next_generation := next_generation s;
                  inflight :=
                    <[id := {| seen := app (world s);
                               began_at := refresher s |}]> (inflight s) |}
      end
  | Finish id =>
      match inflight s !! id with
      | Some _ =>
          Some {| world := world s; refresher := refresher s;
                  next_generation := next_generation s;
                  inflight := delete id (inflight s) |}
      | None => None
      end
  | Redeliver typeDB =>
      match refresher s with
      | Returned =>
          Some {| world := world s; refresher := At104 typeDB;
                  next_generation := next_generation s;
                  inflight := inflight s |}
      | _ => None
      end
  | Return =>
      Some {| world :=
                match evepraisal.TypeDB (app (world s)) with
                | Some h => emit (CloseTypeDB h) (world s)
                | None => world s
                end;
              refresher := refresher s;
              next_generation := next_generation s;
              inflight := inflight s |}
  end.

(** The steps of a running service whose fetcher hands over a new type
    database each time. *)
Definition service_step (l : Label) : bool :=
  match l with
  | Deliver | Tick | Begin _ | Finish _ => true
  | Redeliver _ | Return => false
  end.

Fixpoint run (ls : list Label) (s : System) : option System :=
  match ls with
  | [] => Some s
  | l :: ls' =>
      match step l s with
      | Some s' => run ls' s'
      | None => None
      end
  end.

(** A whole refresh: the delivery and the four statements. *)
Definition install : list Label := [Deliver; Tick; Tick; Tick; Tick].

(** A whole invocation of the callback with [typeDB]. *)
Definition reinstall (typeDB : typedb.TypeDB) : list Label :=
  [Redeliver typeDB; Tick; Tick; Tick; Tick].

(** No request in flight holds a type database that has been closed. *)
Definition swap_safe (s : System) : Prop :=
  forall id r h,
    inflight s !! id = Some r ->
    h ∈ handles (seen r) ->
    h ∉ closed (world s).

(** Every request in flight saw exactly one generation. *)
Definition swap_atomic (s : System) : Prop :=
  forall id r, inflight s !! id = Some r -> one_generation (seen r).

(** *** The invariant of the interleaved system *)

Definition below (n : nat) (t : typedb.TypeDB) : Prop :=
  forall h, t = Some h -> h < n.

Definition open_in (w : World) (t : typedb.TypeDB) : Prop :=
  forall h, t = Some h -> h ∉ closed w.

(** What holds at each program point of the callback. *)
Definition callback_inv (n : nat) (pc : CallbackPC) (w : World) : Prop :=
  let a := app w in
  match pc with
  | Returned => one_generation a
  | At104 t =>
      one_generation a /\ t <> evepraisal.TypeDB a
      /\ below n t /\ open_in w t
  | At105 t old =>
      one_generation a /\ old = evepraisal.TypeDB a /\ t <> old
      /\ below n t /\ open_in w t
  | At106 t old =>
      evepraisal.TypeDB a = t /\ bound_to old (evepraisal.Parser a)
      /\ t <> old /\ below n t /\ below n old /\ open_in w old
  | At126 t old =>
      evepraisal.TypeDB a = t /\ bound_to t (evepraisal.Parser a)
      /\ t <> old /\ below n old
  end.

(** What holds at each program point of the callback whatever it is
    invoked with: which type database the two fields refer to. *)
Definition agree_inv (pc : CallbackPC) (w : World) : Prop :=
  let a := app w in
  match pc with
  | Returned => one_generation a
  | At104 _ => one_generation a
  | At105 _ old => one_generation a /\ old = evepraisal.TypeDB a
  | At106 t old =>
      evepraisal.TypeDB a = t /\ bound_to old (evepraisal.Parser a)
  | At126 t _ =>
      evepraisal.TypeDB a = t /\ bound_to t (evepraisal.Parser a)
  end.

(** The callback's local variable [oldTypeDB] (line 104), once it is set. *)
Definition oldTypeDB_of (pc : CallbackPC) : typedb.TypeDB :=
  match pc with
  | Returned | At104 _ => None
  | At105 _ old | At106 _ old | At126 _ old => old
  end.

(** Where a type database that a request captured can be: still
    installed, already closed, or in the running callback's
    [oldTypeDB], on its way to line 128. *)
Definition captured_accounted (s : System) : Prop :=
  forall id r h,
    inflight s !! id = Some r ->
    h ∈ handles (seen r) ->
    h ∈ handles (app (world s))
    \/ h ∈ closed (world s)
    \/ oldTypeDB_of (refresher s) = Some h.

Record agreement (s : System) : Prop := mkAgreement {
  agr_pc : agree_inv (refresher s) (world s);
  agr_requests : forall id r,
    inflight s !! id = Some r ->
    (exists t, bound_to t (evepraisal.Parser (seen r)))
    /\ (began_at r = Returned -> one_generation (seen r))
}.

Record invariant (s : System) : Prop := mkInvariant {
  inv_pc : callback_inv (next_generation s) (refresher s) (world s);
  inv_open : forall h, h ∈ handles (app (world s)) -> h ∉ closed (world s);
  inv_below : forall h,
    h ∈ handles (app (world s)) \/ h ∈ closed (world s) ->
    h < next_generation s;
  inv_requests : forall id r,
    inflight s !! id = Some r ->
    (exists t, bound_to t (evepraisal.Parser (seen r)))
    /\ (began_at r = Returned -> one_generation (seen r))
}.

(** ** The process: [appMain] and [mustStartServers] *)

Inductive Listener : Type := HTTPS | HTTP | Management.

Inductive Resource : Type :=
| PriceDB
| HTTPCache
| PriceFetcher
| AppraisalDB
| StaticFetcher
| CurrentTypeDB (h : nat)
| Server (l : Listener).

(** The viper settings app.go branches on. *)
Record Config : Type := mkConfig {
  newrelic_license_key : string;
  https_addr : string;
  http_addr : string
}.

(** The calls of [appMain] whose error value it tests, by callee and line. *)
Inductive Site : Type :=
| NewPriceDB35
| PriceDBClose40
| NewHTTPCache46
| HTTPCacheClose51
| PriceDBClose58
| NewPriceFetcher64
| PriceFetcherClose69
| NewAppraisalDB76
| AppraisalDBClose81
| NewApplication94
| NewStaticFetcher103
| StaticFetcherClose136
| TypeDBClose142.

(** What [ListenAndServe] / [ListenAndServeTLS] returned, when it has. *)
Inductive ServeErr : Type :=
| ErrServerClosed
| OtherErr (msg : string).

(** What the process meets outside itself.  Times are in milliseconds
    since [appMain] was entered. *)
Record Env : Type := mkEnv {
  (** the call at this site returns a non-nil error *)
  fails : Site -> bool;
  (** the type databases the static fetcher hands to the callback, in
      order, before it is closed *)
  refreshes : list typedb.TypeDB;
  (** what the listener's serve call has returned by the time [appMain]
      waits for the signal; [None] while it is still serving *)
  serve : Listener -> option ServeErr;
  (** when the interrupt arrives *)
  stop_at : Z;
  (** for each listener, when each request in flight on it would finish
      if left alone *)
  busy_until : Listener -> list Z;
  (** for each listener, how long after its last request has ended the
      next tick of the poll timer in its [Shutdown] comes *)
  poll_lag : Listener -> Z
}.

(** [stopCtx, cancel := context.WithTimeout(context.Background(), 5*time.Second)]
    together with the goroutine started in the same iteration, which
    calls [cancel] after sleeping ten seconds. *)
Record StopCtx : Type := mkStopCtx {
  deadline : Z;
  cancel_at : Z
}.

Definition done_at (ctx : StopCtx) : Z := Z.min (deadline ctx) (cancel_at ctx).

(** One call of [server.Shutdown]: when it was entered, when it returned,
    and whether it returned the context's error. *)
Record Drain : Type := mkDrain {
  drained : Listener;
  entered : Z;
  left : Z;
  ctx_err : bool
}.

(** [Shutdown(ctx)] of net/http's [Server], entered at [t] with requests in
    flight that finish at [busy].  It stops accepting and looks for
    active connections, at once and then again at every tick of its poll
    timer; it returns [nil] at the first look that finds none, and
    [ctx.Err()] as soon as the context is done while it waits for a
    tick.  It interrupts no active connection.  The first tick after the
    last request has ended comes [lag] later (the timer's interval is at
    most half a second, jitter apart); when that tick and the context's
    end fall together, [select] may take either, and the context's is
    taken here. *)
Definition Shutdown (t : Z) (ctx : StopCtx) (busy : list Z) (lag : Z)
  : Z * bool :=
  let idle_at := fold_right Z.max t busy in
  if (idle_at <=? t)%Z then (t, false)
  else if (done_at ctx <=? t)%Z then (t, true)
  else
    let tick := (idle_at + Z.max 0 lag)%Z in
    if (tick <? done_at ctx)%Z then (tick, false) else (done_at ctx, true).

(** A deferred call, with its arguments evaluated at the [defer]. *)
Inductive Deferred : Type :=
| DeferClose (r : Resource) (s : Site) (msg : string)
| DeferCloseStaticFetcher
| DeferShutdown (server : Listener) (stopCtx : StopCtx)
| DeferMgmtClose.

Record Proc : Type := mkProc {
  now : Z;
  shared : World;
  opened : list Resource;
  released : list Resource;
  serving : list Listener;
  drains : list Drain;
  deferred : list Deferred;
  stopped : bool;
  logged : list string
}.

Definition Proc0 : Proc :=
  {| now := 0; shared := World0; opened := []; released := [];
     serving := []; drains := []; deferred := []; stopped := false;
     logged := [] |}.

(** A statement either falls through or ends the process in [log.Fatalf],
    which calls [os.Exit(1)]: no deferred call runs after it. *)
Inductive Result (A : Type) : Type :=
| Ok (a : A) (p : Proc)
| Fatalf (msg : string) (p : Proc).
Arguments Ok {A} a p.
Arguments Fatalf {A} msg p.

Definition M (A : Type) : Type := Proc -> Result A.

#[global] Instance M_ret : MRet M := fun A a p => Ok a p.
#[global] Instance M_bind : MBind M := fun A B f m p =>
  match m p with
  | Ok a p' => f a p'
  | Fatalf msg p' => Fatalf msg p'
  end.

Definition log_Println (msg : string) : M unit := fun p =>
  Ok tt {| now := now p; shared := shared p; opened := opened p;
           released := released p; serving := serving p; drains := drains p;
           deferred := deferred p; stopped := stopped p;
           logged := logged p ++ [msg] |}.

Definition log_Fatalf {A} (msg : string) : M A := fun p =>
  Fatalf msg {| now := now p; shared := shared p; opened := opened p;
                released := released p; serving := serving p;
                drains := drains p; deferred := deferred p;
                stopped := stopped p; logged := logged p ++ [msg] |}.

Definition acquired (r : Resource) : M unit := fun p =>
  Ok tt {| now := now p; shared := shared p; opened := opened p ++ [r];
           released := released p; serving := serving p; drains := drains p;
           deferred := deferred p; stopped := stopped p; logged := logged p |}.

Definition release (r : Resource) : M unit := fun p =>
  Ok tt {| now := now p; shared := shared p; opened := opened p;
           released := released p ++ [r]; serving := serving p;
           drains := drains p; deferred := deferred p; stopped := stopped p;
           logged := logged p |}.

(** [defer d]: pushed on the stack, last in first out. *)
Definition defer (d : Deferred) : M unit := fun p =>
  Ok tt {| now := now p; shared := shared p; opened := opened p;
           released := released p; serving := serving p; drains := drains p;
           deferred := d :: deferred p; stopped := stopped p;
           logged := logged p |}.

(** [go func() { err := server.ListenAndServe(); ... }()]. *)
Definition go_serve (l : Listener) : M unit := fun p =>
  Ok tt {| now := now p; shared := shared p; opened := opened p;
           released := released p; serving := serving p ++ [l];
           drains := drains p; deferred := deferred p; stopped := stopped p;
           logged := logged p |}.

Definition time_Sleep (d : Z) : M unit := fun p =>
  Ok tt {| now := (now p + d)%Z; shared := shared p; opened := opened p;
           released := released p; serving := serving p; drains := drains p;
           deferred := deferred p; stopped := stopped p; logged := logged p |}.

(** [x, err := New...(); if err != nil { log.Fatalf(msg) }]. *)
Definition must (env : Env) (s : Site) (msg : string) : M unit := fun p =>
  if fails env s then log_Fatalf msg p else Ok tt p.

(** [err := r.Close(); if err != nil { log.Fatalf(msg) }]. *)
Definition close (env : Env) (r : Resource) (s : Site) (msg : string) : M unit :=
  release r ;; must env s msg.

(** The body of the goroutine that serves listener [l], given what its
    serve call returned. *)
Inductive Goroutine : Type :=
| Serving
| Says (msg : string)
| Dies (msg : string).

Definition stopped_msg (l : Listener) : string :=
  match l with
  | HTTPS => "HTTPS server stopped"
  | HTTP => "HTTP server stopped"
  | Management => "Management HTTP server stopped"
  end.

Definition failure_msg (l : Listener) : string :=
  match l with
  | HTTPS => "HTTPS server failure: %s"
  | HTTP => "HTTP server failure: %s"
  | Management => "Management HTTP server failure: %s"
  end.

Definition serve_goroutine (l : Listener) (err : option ServeErr) : Goroutine :=
  match err with
  | Some ErrServerClosed => Says (stopped_msg l)   (* log.Println *)
  | Some (OtherErr _) => Dies (failure_msg l)      (* log.Fatalf *)
  | None => Serving
  end.

Definition dies (env : Env) (l : Listener) : bool :=
  match serve_goroutine l (serve env l) with
  | Dies _ => true
  | _ => false
  end.

Definition configured (addr : string) : bool := negb (String.eqb addr "").

(** [mustStartServers]: the listeners it appends to [servers], in order. *)
Definition mustStartServers (cfg : Config) : M (list Listener) :=
  servers ← mret [];
  servers ←
    (if configured (https_addr cfg) then
       log_Println "Starting HTTPS server (%s) (%s)" ;;
       acquired (Server HTTPS) ;;
       go_serve HTTPS ;;
       time_Sleep 1000 ;;
       mret (servers ++ [HTTPS])
     else mret servers);
  servers ←
    (if configured (http_addr cfg) then
       log_Println "Starting HTTP server (%s)" ;;
       acquired (Server HTTP) ;;
       go_serve HTTP ;;
       mret (servers ++ [HTTP])
     else mret servers);
  mret servers.

(** The context of one iteration of app.go:181-188: its deadline is
    [timeout] after the present moment, and the goroutine of lines
    184-187 cancels it [sleep] after the present moment. *)
Definition context_WithTimeout (timeout sleep : Z) : M StopCtx := fun p =>
  Ok {| deadline := now p + timeout; cancel_at := now p + sleep |} p.

(** app.go:181-188, one iteration per server. *)
Fixpoint defer_shutdowns (servers : list Listener) : M unit :=
  match servers with
  | [] => mret tt
  | server :: rest =>
      stopCtx ← context_WithTimeout 5000 10000;
      defer (DeferShutdown server stopCtx) ;;
      defer_shutdowns rest
  end.

(** [<-stop].  Until the signal arrives the static fetcher runs the
    callback for each refresh and the listeners serve; a listener
    goroutine that reaches [log.Fatalf] ends the process there. *)
Definition await_stop (env : Env) : M unit := fun p =>
  match find (dies env) (serving p) with
  | Some l => log_Fatalf (failure_msg l) p
  | None =>
      Ok tt {| now := Z.max (now p) (stop_at env);
               shared := foldl (fun w typeDB => callback typeDB w) (shared p)
                           (refreshes env);
               opened := opened p; released := released p;
               serving := serving p; drains := drains p;
               deferred := deferred p; stopped := true; logged := logged p |}
  end.

(** app.go:34-147: the stores and the fetchers, each with its deferred
    [Close].  Lines 31-32 before them only create the channel that
    [await_stop] reads. *)
Definition start_stores (cfg : Config) (env : Env) : M unit :=
  log_Println "Starting price DB" ;;
  must env NewPriceDB35 "Couldn't start price database: %s" ;;
  acquired PriceDB ;;
  defer (DeferClose PriceDB PriceDBClose40 "Problem closing priceDB: %s") ;;
  must env NewHTTPCache46 "Couldn't start httpCache: %s" ;;
  acquired HTTPCache ;;
  defer (DeferClose HTTPCache HTTPCacheClose51 "Problem closing httpCache: %s") ;;
  defer (DeferClose PriceDB PriceDBClose58 "Problem closing priceDB: %s") ;;
  must env NewPriceFetcher64 "Couldn't start price fetcher: %s" ;;
  acquired PriceFetcher ;;
  defer (DeferClose PriceFetcher PriceFetcherClose69 "Problem closing priceDB: %s") ;;
  log_Println "Starting appraisal DB" ;;
  must env NewAppraisalDB76 "Couldn't start appraisal database: %s" ;;
  acquired AppraisalDB ;;
  defer (DeferClose AppraisalDB AppraisalDBClose81 "Problem closing appraisalDB: %s") ;;
  (if configured (newrelic_license_key cfg)
   then must env NewApplication94 "Problem configuring new relic: %s"
   else mret tt) ;;
  log_Println "Starting type fetcher" ;;
  must env NewStaticFetcher103 "Couldn't start static fetcher: %s" ;;
  acquired StaticFetcher ;;
  defer DeferCloseStaticFetcher.

(** app.go:149-208: the listeners, the deferred shutdowns, and the wait
    for the signal.  [startEnvironmentWatchers] is defined outside
    app.go and is left out, as is the set-up of the web context (lines
    149-174), which touches nothing the statements below read. *)
Definition serve_until_stop (cfg : Config) (env : Env) : M unit :=
  servers ← mustStartServers cfg;
  (* [if err != nil] at line 177 tests the [err] of line 132, which is nil *)
  defer_shutdowns servers ;;
  log_Println "Starting Management HTTP server (%s)" ;;
  acquired (Server Management) ;;
  defer DeferMgmtClose ;;
  go_serve Management ;;
  await_stop env ;;
  log_Println "Shutting down".

(** The statements of [appMain], app.go:31-208. *)
Definition appMain_body (cfg : Config) (env : Env) : M unit :=
  start_stores cfg env ;; serve_until_stop cfg env.

(** [if app.TypeDB != nil { err = app.TypeDB.Close(); ... }], app.go:141-146. *)
Definition close_current_typedb (env : Env) : M unit := fun p =>
  match evepraisal.TypeDB (app (shared p)) with
  | Some h =>
      close env (CurrentTypeDB h) TypeDBClose142 "Problem closing typeDB: %s" p
  | None => Ok tt p
  end.

(** [server.Shutdown(stopCtx)]; the error it returns is dropped. *)
Definition shutdown (env : Env) (server : Listener) (stopCtx : StopCtx) : M unit :=
  fun p =>
    let '(t, err) :=
      Shutdown (now p) stopCtx (busy_until env server) (poll_lag env server) in
    Ok tt {| now := t; shared := shared p; opened := opened p;
             released := released p ++ [Server server];
             serving := serving p;
             drains := drains p ++ [{| drained := server; entered := now p;
                                       left := t; ctx_err := err |}];
             deferred := deferred p; stopped := stopped p;
             logged := logged p |}.

(** One deferred call. *)
Definition run_deferred (env : Env) (d : Deferred) : M unit :=
  match d with
  | DeferClose r s msg => close env r s msg
  | DeferCloseStaticFetcher =>
      close env StaticFetcher StaticFetcherClose136
        "Problem closing static fetcher: %s" ;;
      close_current_typedb env
  | DeferShutdown server stopCtx => shutdown env server stopCtx
  | DeferMgmtClose => release (Server Management)
  end.

Fixpoint run_all_deferred (env : Env) (ds : list Deferred) : M unit :=
  match ds with
  | [] => mret tt
  | d :: rest => run_deferred env d ;; run_all_deferred env rest
  end.

Inductive Exit : Type := Exit0 | Exit1.

(** [appMain]: its statements, then on return its deferred calls, last in
    first out. *)
Definition appMain (cfg : Config) (env : Env) : Exit * Proc :=
  match appMain_body cfg env Proc0 with
  | Fatalf _ p => (Exit1, p)
  | Ok _ p =>
      match run_all_deferred env (deferred p) p with
      | Fatalf _ p' => (Exit1, p')
      | Ok _ p' => (Exit0, p')
      end
  end.

(** The listeners [mustStartServers] starts. *)
Definition listeners (cfg : Config) : list Listener :=
  (if configured (https_addr cfg) then [HTTPS] else [])
  ++ (if configured (http_addr cfg) then [HTTP] else []).

(** The order in which [appMain] acquires what it later releases. *)
Definition acquisition_order (cfg : Config) : list Resource :=
  [PriceDB; HTTPCache; PriceFetcher; AppraisalDB; StaticFetcher]
  ++ map Server (listeners cfg) ++ [Server Management].

(** When [<-stop] returns: [mustStartServers] sleeps one second after
    starting the HTTPS listener, and nothing else before takes time. *)
Definition startup_time (cfg : Config) : Z :=
  if configured (https_addr cfg) then 1000 else 0.

Definition signal_time (cfg : Config) (env : Env) : Z :=
  Z.max (startup_time cfg) (stop_at env).

(** The context every iteration of app.go:181-188 builds. *)
Definition stop_ctx (cfg : Config) : StopCtx :=
  {| deadline := startup_time cfg + 5000;
     cancel_at := startup_time cfg + 10000 |}.

(** The deferred calls that close the stores and fetchers, in the order
    in which they run. *)
Definition deferred_closes : list Deferred :=
  [ DeferCloseStaticFetcher;
    DeferClose AppraisalDB AppraisalDBClose81 "Problem closing appraisalDB: %s";
    DeferClose PriceFetcher PriceFetcherClose69 "Problem closing priceDB: %s";
    DeferClose PriceDB PriceDBClose58 "Problem closing priceDB: %s";
    DeferClose HTTPCache HTTPCacheClose51 "Problem closing httpCache: %s";
    DeferClose PriceDB PriceDBClose40 "Problem closing priceDB: %s" ].

(** Shutting the servers of [servers] down one after the other, from [t]. *)
Fixpoint drain_in_turn (env : Env) (ctx : StopCtx) (servers : list Listener)
    (t : Z) : list Drain :=
  match servers with
  | [] => []
  | l :: rest =>
      let r := Shutdown t ctx (busy_until env l) (poll_lag env l) in
      {| drained := l; entered := t; left := fst r; ctx_err := snd r |}
      :: drain_in_turn env ctx rest (fst r)
  end.

(** Each call is entered when the one before it has returned. *)
Fixpoint chained (t : Z) (ds : list Drain) : Prop :=
  match ds with
  | [] => True
  | d :: rest => entered d = t /\ chained (left d) rest
  end.

(** ** What the specification asks of the process *)

(** The grace duration the shutdown is meant to allow. *)
Definition grace : Z := 5000.

(** A request that would finish at [c] does finish if the process is
    still there: [Shutdown] interrupts nothing, the exit does. *)
Definition completes (p : Proc) (c : Z) : bool := (c <=? now p)%Z.

(** Every request in flight at the signal that needs no more than the
    grace duration from then on completes. *)
Definition graceful (cfg : Config) (env : Env) : Prop :=
  forall l c,
    l ∈ listeners cfg -> c ∈ busy_until env l ->
    (c <= signal_time cfg env + grace)%Z ->
    completes (snd (appMain cfg env)) c = true.

(** All listeners start draining at the signal. *)
Definition drained_concurrently (cfg : Config) (env : Env) : Prop :=
  forall d, d ∈ drains (snd (appMain cfg env)) -> entered d = signal_time cfg env.

(** Everything acquired is released once, in the reverse order. *)
Definition released_in_reverse (p : Proc) : Prop :=
  released p = rev (opened p).

(** The resources whose releases the ledger theorem compares with their
    acquisitions: those [appMain] opens itself, the price database
    apart.  The type database is handed over by the static fetcher. *)
Definition counted (r : Resource) : bool :=
  match r with
  | PriceDB | CurrentTypeDB _ => false
  | _ => true
  end.

(** A failing listener ends the process only if it was required. *)
Definition fatal_only_if_required (required : Listener -> bool)
    (cfg : Config) (env : Env) : Prop :=
  forall l msg,
    l ∈ listeners cfg ++ [Management] ->
    serve env l = Some (OtherErr msg) ->
    required l = false ->
    stopped (snd (appMain cfg env)) = true.

(** ** The classification dispatcher *)

Module dispatcher.
Definition ParsedItems : Type := list string.

(** Modelled from the spec: the Recognizer capability
    [attempt(rawText, referenceSnapshot) -> (ParsedItems, recognized)].
    The recognizers live in package parsers, outside app.go; one
    that "raises an internal error on malformed input is treated as
    declined". *)
Inductive Attempt : Type :=
| Matched (items : ParsedItems)
| Declined
| Raised (err : string).

Inductive DispatchResult : Type :=
| Recognized (items : ParsedItems) (recognizerIdentity : parsers.Parser)
| Unrecognized.

(** Modelled from the spec: the dispatch loop of
    [evepraisal.NewContextMultiParser], which is outside app.go: "iterate
    the registered Recognizer sequence in fixed registration order;
    invoke each with (rawText, snapshot); on the first Recognizer
    reporting recognized=true, stop and return its items tagged with its
    identity"; a "not recognized" result if all decline. *)
Fixpoint dispatch (attempt : parsers.Parser -> string -> typedb.TypeDB -> Attempt)
    (registered : list parsers.Parser) (rawText : string)
    (snapshot : typedb.TypeDB) : DispatchResult :=
  match registered with
  | [] => Unrecognized
  | r :: rest =>
      match attempt r rawText snapshot with
      | Matched items => Recognized items r
      | Declined | Raised _ => dispatch attempt rest rawText snapshot
      end
  end.

(** The recognizer does not report a match on this input. *)
Definition declines (attempt : parsers.Parser -> string -> typedb.TypeDB -> Attempt)
    (rawText : string) (snapshot : typedb.TypeDB) (r : parsers.Parser) : Prop :=
  forall items, attempt r rawText snapshot <> Matched items.
End dispatcher.

(** A stub chain: [ParseEFT] raises, [ParseFitting] and [ParseAssets]
    both match everything, the heuristic parser returns no items. *)
Definition stub_attempt (r : parsers.Parser) (rawText : string)
    (snapshot : typedb.TypeDB) : dispatcher.Attempt :=
  match r with
  | parsers.ParseEFT => dispatcher.Raised "unexpected end of input"
  | parsers.ParseFitting => dispatcher.Matched ["fitting"]
  | parsers.ParseAssets => dispatcher.Matched ["assets"]
  | parsers.NewHeuristicParser _ => dispatcher.Matched []
  | _ => dispatcher.Declined
  end.

(** ** Inputs the statements below are evaluated at *)

Definition no_failure : Site -> bool := fun _ => false.

Definition cfg_http : Config :=
  {| newrelic_license_key := ""; https_addr := ""; http_addr := ":8080" |}.

Definition cfg_both : Config :=
  {| newrelic_license_key := ""; https_addr := ":443"; http_addr := ":80" |}.

(** The interrupt arrives a minute after the start, while one request on
    the HTTP listener needs one more second. *)
Definition env_late_signal : Env :=
  {| fails := no_failure; refreshes := [Some 0]; serve := fun _ => None;
     stop_at := 60000;
     busy_until := fun l => match l with HTTP => [61000%Z] | _ => [] end;
     poll_lag := fun _ => 250%Z |}.

(** The interrupt arrives two seconds after the start; the HTTP listener
    has a request that runs until second ten, the HTTPS listener one
    that runs until second four. *)
Definition env_slow_http : Env :=
  {| fails := no_failure; refreshes := [Some 0]; serve := fun _ => None;
     stop_at := 2000;
     busy_until := fun l =>
       match l with
       | HTTP => [10000%Z]
       | HTTPS => [4000%Z]
       | Management => []
       end;
     poll_lag := fun _ => 250%Z |}.

(** Nothing fails, two refreshes, no request in flight at the signal. *)
Definition env_quiet : Env :=
  {| fails := no_failure; refreshes := [Some 0; Some 1];
     serve := fun _ => None; stop_at := 2000; busy_until := fun _ => [];
     poll_lag := fun _ => 250%Z |}.

(** [bolt.NewHTTPCache] returns an error. *)
Definition env_no_httpcache : Env :=
  {| fails := fun s => match s with NewHTTPCache46 => true | _ => false end;
     refreshes := []; serve := fun _ => None; stop_at := 2000;
     busy_until := fun _ => []; poll_lag := fun _ => 250%Z |}.

(** The HTTP listener cannot bind. *)
Definition env_bind_fails : Env :=
  {| fails := no_failure; refreshes := [Some 0];
     serve := fun l =>
       match l with
       | HTTP => Some (OtherErr "listen tcp :8080: bind: address already in use")
       | _ => None
       end;
     stop_at := 2000; busy_until := fun _ => []; poll_lag := fun _ => 250%Z |}.

(** ** Sequences of refreshes, and the outcome of the process *)

(** The callback run once for each type database of [typeDBs], in order:
    what [await_stop] does with the refreshes of the environment. *)
Definition run_callbacks (typeDBs : list typedb.TypeDB) (w : World) : World :=
  foldl (fun w typeDB => callback typeDB w) w typeDBs.

(** The handle of a type database closed by the deferred call of
    app.go:141-146. *)
Definition typedb_of (r : Resource) : option nat :=
  match r with
  | CurrentTypeDB h => Some h
  | _ => None
  end.

(** No call of app.go:35-134 returns an error; [newrelic.NewApplication]
    is called only when a license key is configured. *)
Definition startup_ok (cfg : Config) (env : Env) : bool :=
  negb (fails env NewPriceDB35)
  && negb (fails env NewHTTPCache46)
  && negb (fails env NewPriceFetcher64)
  && negb (fails env NewAppraisalDB76)
  && (negb (configured (newrelic_license_key cfg))
      || negb (fails env NewApplication94))
  && negb (fails env NewStaticFetcher103).

(** No deferred [Close] returns an error; [app.TypeDB.Close] is called
    only when [current], the value of [app.TypeDB] at exit, is not nil. *)
Definition closes_ok (env : Env) (current : typedb.TypeDB) : bool :=
  negb (fails env StaticFetcherClose136)
  && match current with
     | Some _ => negb (fails env TypeDBClose142)
     | None => true
     end
  && negb (fails env AppraisalDBClose81)
  && negb (fails env PriceFetcherClose69)
  && negb (fails env PriceDBClose58)
  && negb (fails env HTTPCacheClose51)
  && negb (fails env PriceDBClose40).

(** The releases of a return on which nothing fails, in order. *)
Definition full_releases (cfg : Config) (current : typedb.TypeDB)
  : list Resource :=
  Server Management :: map Server (rev (listeners cfg))
  ++ StaticFetcher :: option_list (CurrentTypeDB <$> current)
  ++ [AppraisalDB; PriceFetcher; PriceDB; HTTPCache; PriceDB].

Definition is_server (r : Resource) : bool :=
  match r with
  | Server _ => true
  | _ => false
  end.

(** ** The web context, app.go:149-174 *)

Module gostrings.
(** [strings.HasSuffix]:
    [len(s) >= len(suffix) && s[len(s)-len(suffix):] == suffix]. *)
Definition HasSuffix (s suffix : string) : bool :=
  (String.length suffix <=? String.length s)%nat
  && String.eqb
       (String.substring (String.length s - String.length suffix)
          (String.length suffix) s)
       suffix.

(** [strings.TrimSuffix]: [s] without the trailing [suffix], once, when
    it has one; [s] otherwise. *)
Definition TrimSuffix (s suffix : string) : string :=
  if HasSuffix s suffix
  then String.substring 0 (String.length s - String.length suffix) s
  else s.
End gostrings.

(** The viper settings read by app.go:150-171. *)
Record WebSettings : Type := mkWebSettings {
  base_url : string;
  extra_js : string;
  ad_block : string;
  cookie_auth_key : string;
  cookie_encryption_key : string;
  sso_client_id : string;
  sso_client_secret : string;
  sso_authorize_url : string;
  sso_token_url : string;
  sso_verify_url : string
}.

(** [oauth2.Config] as app.go:161-170 fills it. *)
Record oauth2_Config : Type := mkOauth2Config {
  ClientID : string;
  ClientSecret : string;
  Scopes : list string;
  AuthURL : string;
  TokenURL : string;
  RedirectURL : string
}.

(** The fields of [web.Context] that [appMain] assigns.  [CookieStore] is
    the key pairs handed to [sessions.NewCookieStore]. *)
Record WebContext : Type := mkWebContext {
  BaseURL : string;
  ExtraJS : string;
  AdBlock : string;
  CookieStore : list string;
  OauthConfig : option oauth2_Config;
  OauthVerifyURL : string
}.

(** app.go:150-172, applied to the context [web.NewContext(app)]
    returned; [random_key] is what [securecookie.GenerateRandomKey(32)]
    yields. *)
Definition configure_web (v : WebSettings) (random_key : string)
    (webContext : WebContext) : WebContext :=
  let cookies :=
    if negb (String.eqb (cookie_auth_key v) "")
    then [cookie_auth_key v; cookie_encryption_key v]
    else [random_key] in
  let sso := negb (String.eqb (sso_client_id v) "") in
  {| BaseURL := gostrings.TrimSuffix (base_url v) "/";
     ExtraJS := extra_js v;
     AdBlock := ad_block v;
     CookieStore := cookies;
     OauthConfig :=
       if sso
       then Some {| ClientID := sso_client_id v;
                    ClientSecret := sso_client_secret v;
                    Scopes := [];
                    AuthURL := sso_authorize_url v;
                    TokenURL := sso_token_url v;
                    RedirectURL := base_url v +:+ "/oauthcallback" |}
       else OauthConfig webContext;
     OauthVerifyURL :=
       if sso then sso_verify_url v else OauthVerifyURL webContext |}.

(** Settings and contexts the statements below are evaluated at. *)
Definition web_settings_slash : WebSettings :=
  {| base_url := "https://evepraisal.com/"; extra_js := ""; ad_block := "";
     cookie_auth_key := ""; cookie_encryption_key := "";
     sso_client_id := "client"; sso_client_secret := "secret";
     sso_authorize_url := "https://login.eveonline.com/oauth/authorize";
     sso_token_url := "https://login.eveonline.com/oauth/token";
     sso_verify_url := "https://login.eveonline.com/oauth/verify" |}.

Definition web_context0 : WebContext :=
  {| BaseURL := ""; ExtraJS := ""; AdBlock := ""; CookieStore := [];
     OauthConfig := None; OauthVerifyURL := "" |}.

(** The static fetcher's [Close] returns an error. *)
Definition env_fetcher_close_fails : Env :=
  {| fails := fun s =>
       match s with StaticFetcherClose136 => true | _ => false end;
     refreshes := [Some 0; Some 1]; serve := fun _ => None; stop_at := 2000;
     busy_until := fun _ => []; poll_lag := fun _ => 250%Z |}.

(** The interrupt arrives three seconds after the start; every request
    in flight is over before second six, when the contexts end. *)
Definition env_early_signal : Env :=
  {| fails := no_failure; refreshes := [Some 0]; serve := fun _ => None;
     stop_at := 3000;
     busy_until := fun l =>
       match l with
       | HTTP => [4500%Z; 3200%Z]
       | HTTPS => [5900%Z]
       | Management => []
       end;
     poll_lag := fun _ => 250%Z |}.

(** * Theorems *)

Lemma callback_returns typeDB w :
  fst (callback_steps 4 (At104 typeDB) w) = Returned.
Proof. destruct w as [[old p] es]; destruct old; reflexivity. Qed.

Lemma callback_unfold typeDB w :
  callback typeDB w =
  {| app := {| evepraisal.TypeDB := typeDB;
               evepraisal.Parser := Some (new_parser typeDB) |};
     effects := effects w ++ [AssignTypeDB typeDB; AssignParser (new_parser typeDB)]
                ++ close_old (evepraisal.TypeDB (app w)) |}.
Proof.
  destruct w as [[old p] es]. unfold callback; simpl.
  destruct old as [h|]; unfold emit; simpl; rewrite <- ?app_assoc; reflexivity.
Qed.

Lemma new_parser_bound typeDB :
  Forall (fun t' => t' = typeDB) (parsers.bound (new_parser typeDB)).
Proof. simpl. repeat constructor. Qed.

(** C10. Every execution of the refresh callback first assigns the new
    type database, then assigns the parser built from that same type
    database: the context multi-parser over the thirteen format parsers
    followed by the context listing parser and, last, the heuristic
    parser, all three bound to it; and only then closes the previous
    type database, if there was one.  When the callback returns, the
    installed parser is bound to the installed type database and to no
    other. *)
Theorem callback_installs_parser_for_current_typedb :
  forall (typeDB : typedb.TypeDB) (w : World),
    let w' := callback typeDB w in
    let installed :=
      parsers.NewContextMultiParser typeDB
        [ parsers.ParseKillmail; parsers.ParseEFT; parsers.ParseFitting;
          parsers.ParseLootHistory; parsers.ParsePI; parsers.ParseViewContents;
          parsers.ParseWallet; parsers.ParseSurveyScan; parsers.ParseContract;
          parsers.ParseAssets; parsers.ParseIndustry; parsers.ParseCargoScan;
          parsers.ParseDScan;
          parsers.NewContextListingParser typeDB;
          parsers.NewHeuristicParser typeDB ] in
    evepraisal.TypeDB (app w') = typeDB
    /\ evepraisal.Parser (app w') = Some installed
    /\ parsers.bound installed = [typeDB; typeDB; typeDB]
    /\ bound_to (evepraisal.TypeDB (app w')) (evepraisal.Parser (app w'))
    /\ effects w' =
         effects w
         ++ [AssignTypeDB typeDB; AssignParser installed]
         ++ match evepraisal.TypeDB (app w) with
            | Some h => [Println "closeing old typedb"; CloseTypeDB h;
                         Println "closed old typedb"]
            | None => []
            end.
Proof.
  intros typeDB w w' installed. subst w' installed.
  rewrite callback_unfold. simpl.
  repeat split. apply new_parser_bound.
Qed.

(** ** The interleaved system *)

Lemma closed_emit e w : closed (emit e w) = closed w ++ option_list (is_close e).
Proof.
  unfold closed, emit; simpl. rewrite omap_app. simpl.
  destruct (is_close e); reflexivity.
Qed.

Lemma closed_callback typeDB w :
  closed (callback typeDB w)
  = closed w ++ option_list (evepraisal.TypeDB (app w)).
Proof.
  rewrite callback_unfold. unfold closed at 1; simpl.
  rewrite omap_app. fold (closed w). f_equal.
  destruct (evepraisal.TypeDB (app w)); reflexivity.
Qed.

Lemma elem_of_handles h a :
  h ∈ handles a <->
  evepraisal.TypeDB a = Some h
  \/ exists p, evepraisal.Parser a = Some p /\ Some h ∈ parsers.bound p.
Proof.
  unfold handles. rewrite list_elem_of_omap. split.
  - intros (t & Hin & Ht). simpl in Ht. subst t.
    apply elem_of_cons in Hin as [Heq | Hin]; [now left | right].
    destruct (evepraisal.Parser a) as [p|]; simpl in Hin.
    + now exists p.
    + now apply elem_of_nil in Hin.
  - intros [Heq | (p & Hp & Hin)]; exists (Some h); split; try reflexivity.
    + rewrite Heq. apply elem_of_cons; now left.
    + rewrite Hp. apply elem_of_cons; now right.
Qed.

Lemma handles_one_generation h a :
  one_generation a -> h ∈ handles a -> evepraisal.TypeDB a = Some h.
Proof.
  unfold one_generation, bound_to. intros Hone Hin.
  apply elem_of_handles in Hin as [Heq | (p & Hp & Hin)]; [assumption |].
  rewrite Hp in Hone. rewrite Forall_forall in Hone.
  symmetry. now apply Hone.
Qed.

Lemma handles_bound_to h t t' p :
  bound_to t p ->
  h ∈ handles {| evepraisal.TypeDB := t'; evepraisal.Parser := p |} ->
  t' = Some h \/ t = Some h.
Proof.
  intros Hb Hin.
  apply elem_of_handles in Hin as [Heq | (q & Hq & Hin)]; [now left | right].
  simpl in Hq. subst p. simpl in Hb. rewrite Forall_forall in Hb.
  symmetry. now apply Hb.
Qed.

Lemma invariant_System0 : invariant System0.
Proof.
  split; simpl.
  - exact I.
  - intros h Hin. apply elem_of_handles in Hin as [Heq | (p & Hp & _)];
      discriminate.
  - intros h [Hin | Hin].
    + apply elem_of_handles in Hin as [Heq | (p & Hp & _)]; discriminate.
    + now apply elem_of_nil in Hin.
  - intros id r Hr. rewrite lookup_empty in Hr. discriminate.
Qed.

Lemma closed_with_app e a w :
  closed (emit e {| app := a; effects := effects w |})
  = closed w ++ option_list (is_close e).
Proof. apply (closed_emit e {| app := a; effects := effects w |}). Qed.

Lemma closed_close_old h w :
  closed (emit (Println "closed old typedb")
            (emit (CloseTypeDB h) (emit (Println "closeing old typedb") w)))
  = closed w ++ [h].
Proof. rewrite !closed_emit. simpl. now rewrite !app_nil_r. Qed.

Lemma step_invariant l s s' :
  service_step l = true -> invariant s -> step l s = Some s' -> invariant s'.
Proof.
  intros Hservice [Hpc Hopen Hbelow Hreq] Hstep.
  destruct s as [w pc n reqs]; simpl in *.
  destruct l; simpl in Hstep; try discriminate Hservice.
  - (* Deliver *)
    destruct pc; try discriminate. injection Hstep as <-. split; simpl.
    + repeat split.
      * exact Hpc.
      * intros Heq. assert (n < n); [| lia].
        apply Hbelow. left. apply elem_of_handles. left. now symmetry.
      * intros h [= <-]. lia.
      * intros h [= <-] Hin. assert (n < n); [| lia]. apply Hbelow. now right.
    + exact Hopen.
    + intros h Hh. specialize (Hbelow h Hh). lia.
    + exact Hreq.
  - (* Tick *)
    destruct pc as [|t|t old|t old|t old]; try discriminate;
      simpl in Hstep; injection Hstep as <-; simpl in *.
    + (* oldTypeDB := app.TypeDB *)
      destruct Hpc as (Hone & Hne & Hbt & Hot).
      split; simpl; [repeat split; auto | auto ..].
    + (* app.TypeDB = typeDB *)
      destruct Hpc as (Hone & -> & Hne & Hbt & Hot).
      split; simpl.
      * repeat split; auto.
        -- intros h Hh. apply Hbelow. left. apply elem_of_handles. now left.
        -- intros h Hh. rewrite closed_with_app. simpl. rewrite app_nil_r.
           apply Hopen. apply elem_of_handles. now left.
      * intros h Hin. rewrite closed_with_app. simpl. rewrite app_nil_r.
        apply (handles_bound_to _ _ _ _ Hone) in Hin as [Ht | Ht].
        -- now apply Hot.
        -- apply Hopen. apply elem_of_handles. now left.
      * rewrite closed_with_app. simpl. rewrite app_nil_r.
        intros h [Hin | Hin].
        -- apply (handles_bound_to _ _ _ _ Hone) in Hin as [Ht | Ht].
           ++ now apply Hbt.
           ++ apply Hbelow. left. apply elem_of_handles. now left.
        -- apply Hbelow. now right.
      * exact Hreq.
    + (* app.Parser = NewContextMultiParser(typeDB, ...) *)
      destruct Hpc as (Ht & Hb & Hne & Hbt & Hbo & Hoo).
      assert (Hnew : forall h,
        h ∈ handles {| evepraisal.TypeDB := evepraisal.TypeDB (app w);
                       evepraisal.Parser := Some (new_parser t) |} ->
        t = Some h).
      { intros h Hin.
        apply (handles_bound_to h t (evepraisal.TypeDB (app w))) in Hin.
        - rewrite Ht in Hin. tauto.
        - apply new_parser_bound. }
      split; simpl.
      * repeat split; auto.
      * intros h Hin. rewrite closed_with_app. simpl. rewrite app_nil_r.
        apply Hopen. apply elem_of_handles. left. rewrite Ht. now apply Hnew.
      * rewrite closed_with_app. simpl. rewrite app_nil_r.
        intros h [Hin | Hin].
        -- apply Hbt. now apply Hnew.
        -- apply Hbelow. now right.
      * exact Hreq.
    + (* if oldTypeDB != nil { oldTypeDB.Close() } *)
      destruct Hpc as (Ht & Hb & Hne & Hbo).
      assert (Hone : one_generation (app w)).
      { unfold one_generation. now rewrite Ht. }
      destruct old as [h0|]; split; simpl; auto.
      * intros h Hin. rewrite closed_close_old.
        intros Hc. apply elem_of_app in Hc as [Hc | Hc].
        -- now apply (Hopen h).
        -- apply list_elem_of_singleton in Hc. subst h0.
           apply (handles_one_generation _ _ Hone) in Hin. congruence.
      * rewrite closed_close_old. intros h [Hin | Hin].
        -- apply Hbelow. now left.
        -- apply elem_of_app in Hin as [Hc | Hc].
           ++ apply Hbelow. now right.
           ++ apply list_elem_of_singleton in Hc. subst h0. now apply Hbo.
  - (* Begin *)
    destruct (reqs !! id) eqn:Hid; try discriminate.
    injection Hstep as <-. split; simpl; auto.
    intros id' r Hr. destruct (decide (id = id')) as [<- | Hne].
    + rewrite lookup_insert_eq in Hr. injection Hr as <-. simpl. split.
      * destruct pc; simpl in Hpc.
        -- now exists (evepraisal.TypeDB (app w)).
        -- now exists (evepraisal.TypeDB (app w)).
        -- now exists (evepraisal.TypeDB (app w)).
        -- exists oldTypeDB. tauto.
        -- exists typeDB. tauto.
      * intros ->. exact Hpc.
    + rewrite lookup_insert_ne in Hr by assumption. now apply (Hreq id').
  - (* Finish *)
    destruct (reqs !! id) eqn:Hid; try discriminate.
    injection Hstep as <-. split; simpl; auto.
    intros id' r' Hr. destruct (decide (id = id')) as [<- | Hne].
    + rewrite lookup_delete_eq in Hr. discriminate.
    + rewrite lookup_delete_ne in Hr by assumption. now apply (Hreq id').
Qed.

Lemma run_invariant ls : forall s s',
  forallb service_step ls = true ->
  invariant s -> run ls s = Some s' -> invariant s'.
Proof.
  induction ls as [| l ls IH]; intros s s' Hservice Hinv Hrun; simpl in Hrun.
  - now injection Hrun as <-.
  - simpl in Hservice. apply andb_true_iff in Hservice as [Hl Hls].
    destruct (step l s) as [s1|] eqn:Hstep; [| discriminate].
    eapply IH; [exact Hls | | exact Hrun].
    eapply step_invariant; eassumption.
Qed.

Lemma agreement_System0 : agreement System0.
Proof.
  split; simpl.
  - exact I.
  - intros id r Hr. rewrite lookup_empty in Hr. discriminate.
Qed.

Lemma step_agreement l s s' : agreement s -> step l s = Some s' -> agreement s'.
Proof.
  intros [Hpc Hreq] Hstep.
  destruct s as [w pc n reqs]; simpl in *.
  destruct l; simpl in Hstep.
  - (* Deliver *)
    destruct pc; try discriminate. injection Hstep as <-.
    split; simpl; assumption.
  - (* Tick *)
    destruct pc as [|t|t old|t old|t old]; try discriminate;
      simpl in Hstep; injection Hstep as <-; split; simpl in *;
      try exact Hreq.
    + split; [exact Hpc | reflexivity].
    + destruct Hpc as [Hone ->]. split; [reflexivity | exact Hone].
    + destruct Hpc as [Ht _]. split; [exact Ht | apply new_parser_bound].
    + destruct Hpc as [Ht Hb]. unfold one_generation.
      destruct old; simpl; now rewrite Ht.
  - (* Begin *)
    destruct (reqs !! id) eqn:Hid; try discriminate.
    injection Hstep as <-. split; simpl; [exact Hpc |].
    intros id' r Hr. destruct (decide (id = id')) as [<- | Hne].
    + rewrite lookup_insert_eq in Hr. injection Hr as <-. simpl. split.
      * destruct pc; simpl in Hpc.
        -- now exists (evepraisal.TypeDB (app w)).
        -- now exists (evepraisal.TypeDB (app w)).
        -- exists (evepraisal.TypeDB (app w)). tauto.
        -- exists oldTypeDB. tauto.
        -- exists typeDB. tauto.
      * intros ->. exact Hpc.
    + rewrite lookup_insert_ne in Hr by assumption. now apply (Hreq id').
  - (* Finish *)
    destruct (reqs !! id) eqn:Hid; try discriminate.
    injection Hstep as <-. split; simpl; [exact Hpc |].
    intros id' r' Hr. destruct (decide (id = id')) as [<- | Hne].
    + rewrite lookup_delete_eq in Hr. discriminate.
    + rewrite lookup_delete_ne in Hr by assumption. now apply (Hreq id').
  - (* Redeliver *)
    destruct pc; try discriminate. injection Hstep as <-.
    split; simpl; assumption.
  - (* Return *)
    injection Hstep as <-. split; simpl; [| exact Hreq].
    destruct (evepraisal.TypeDB (app w)); exact Hpc.
Qed.

Lemma run_agreement ls : forall s s',
  agreement s -> run ls s = Some s' -> agreement s'.
Proof.
  induction ls as [| l ls IH]; intros s s' Hagr Hrun; simpl in Hrun.
  - now injection Hrun as <-.
  - destruct (step l s) as [s1|] eqn:Hstep; [| discriminate].
    eapply IH; [| exact Hrun]. eapply step_agreement; eassumption.
Qed.

(** Closed goals about [run] are settled by evaluation. *)
Ltac evaluate := vm_compute; reflexivity.

(** C1, as the claim states it, fails: a request captures generation 0,
    a second install then runs to completion while the request is still
    in flight, and its last statement closes generation 0. *)
Lemma swap_safety_counterexample :
  exists s r,
    run (install ++ [Begin 7] ++ install) System0 = Some s
    /\ inflight s !! 7 = Some r
    /\ evepraisal.TypeDB (seen r) = Some 0
    /\ closed (world s) = [0]
    /\ ~ swap_safe s.
Proof.
  exists (default System0 (run (install ++ [Begin 7] ++ install) System0)).
  exists {| seen := {| evepraisal.TypeDB := Some 0;
                       evepraisal.Parser := Some (new_parser (Some 0)) |};
            began_at := Returned |}.
  split; [evaluate |].
  split; [evaluate |].
  split; [reflexivity |].
  split; [evaluate |].
  intros Hsafe.
  apply (Hsafe 7 {| seen := {| evepraisal.TypeDB := Some 0;
                               evepraisal.Parser := Some (new_parser (Some 0)) |};
                    began_at := Returned |} 0).
  - evaluate.
  - apply elem_of_handles. now left.
  - replace (closed (world _)) with [0] by evaluate.
    apply list_elem_of_singleton. reflexivity.
Qed.

Lemma step_closed l s s' h :
  step l s = Some s' -> h ∈ closed (world s) -> h ∈ closed (world s').
Proof.
  intros Hstep Hin. destruct s as [w pc n reqs]; simpl in *.
  destruct l; simpl in Hstep.
  - destruct pc; try discriminate. now injection Hstep as <-.
  - destruct pc as [|t|t old|t old|t [h'|]]; try discriminate;
      simpl in Hstep; injection Hstep as <-; simpl;
      rewrite ?closed_emit; simpl; rewrite ?app_nil_r;
      first [assumption | apply elem_of_app; now left].
  - destruct (reqs !! id); try discriminate. now injection Hstep as <-.
  - destruct (reqs !! id); try discriminate. now injection Hstep as <-.
  - destruct pc; try discriminate. now injection Hstep as <-.
  - injection Hstep as <-. simpl.
    destruct (evepraisal.TypeDB (app w)); [| assumption].
    rewrite closed_emit. apply elem_of_app. now left.
Qed.

Lemma run_closed ls : forall s s' h,
  run ls s = Some s' -> h ∈ closed (world s) -> h ∈ closed (world s').
Proof.
  induction ls as [| l ls IH]; intros s s' h Hrun Hin; simpl in Hrun.
  - now injection Hrun as <-.
  - destruct (step l s) as [s1|] eqn:Hstep; [| discriminate].
    eapply IH; [exact Hrun |]. eapply step_closed; eassumption.
Qed.

Lemma captured_accounted_System0 : captured_accounted System0.
Proof. intros id r h Hr. simpl in Hr. rewrite lookup_empty in Hr. discriminate. Qed.

Lemma step_captured_accounted l s s' :
  agreement s -> captured_accounted s -> step l s = Some s' ->
  captured_accounted s'.
Proof.
  intros [Hpc _] Hacc Hstep.
  destruct s as [w pc n reqs]; unfold captured_accounted in *; simpl in *.
  destruct l; simpl in Hstep.
  - (* Deliver *)
    destruct pc; try discriminate. injection Hstep as <-. simpl.
    intros id r h Hr Hh.
    destruct (Hacc id r h Hr Hh) as [H | [H | H]]; [tauto | tauto | discriminate].
  - (* Tick *)
    destruct pc as [|t|t old|t old|t old]; try discriminate;
      simpl in Hstep; injection Hstep as <-; simpl;
      intros id r h Hr Hh;
      destruct (Hacc id r h Hr Hh) as [H | [H | H]].
    + tauto.
    + tauto.
    + discriminate.
    + (* line 105 *)
      destruct Hpc as [_ ->].
      apply elem_of_handles in H as [H | (p & Hp & Hin)].
      * right; right. exact H.
      * left. apply elem_of_handles. right. exists p. now split.
    + right; left. rewrite closed_emit. simpl. now rewrite app_nil_r.
    + tauto.
    + (* line 106 *)
      destruct Hpc as [Ht Hb].
      apply elem_of_handles in H as [H | (p & Hp & Hin)].
      * left. apply elem_of_handles. left. exact H.
      * right; right. rewrite Hp in Hb. simpl in Hb.
        rewrite Forall_forall in Hb. symmetry. now apply Hb.
    + right; left. rewrite closed_emit. simpl. now rewrite app_nil_r.
    + tauto.
    + (* line 126 *)
      left. destruct old; exact H.
    + right; left. destruct old; [| assumption].
      rewrite !closed_emit. simpl. rewrite !app_nil_r.
      apply elem_of_app. now left.
    + right; left. simpl in H. subst old. rewrite !closed_emit. simpl. rewrite !app_nil_r.
      apply elem_of_app. right. apply list_elem_of_singleton. reflexivity.
  - (* Begin *)
    destruct (reqs !! id) eqn:Hid; try discriminate.
    injection Hstep as <-. simpl. intros id' r h Hr Hh.
    destruct (decide (id = id')) as [<- | Hne].
    + rewrite lookup_insert_eq in Hr. injection Hr as <-. now left.
    + rewrite lookup_insert_ne in Hr by assumption. now apply (Hacc id' r).
  - (* Finish *)
    destruct (reqs !! id) eqn:Hid; try discriminate.
    injection Hstep as <-. simpl. intros id' r' h Hr Hh.
    destruct (decide (id = id')) as [<- | Hne].
    + rewrite lookup_delete_eq in Hr. discriminate.
    + rewrite lookup_delete_ne in Hr by assumption. now apply (Hacc id' r').
  - (* Redeliver *)
    destruct pc; try discriminate. injection Hstep as <-. simpl.
    intros id r h Hr Hh.
    destruct (Hacc id r h Hr Hh) as [H | [H | H]]; [tauto | tauto | discriminate].
  - (* Return *)
    injection Hstep as <-. simpl. intros id r h Hr Hh.
    destruct (Hacc id r h Hr Hh) as [H | [H | H]].
    + left. destruct (evepraisal.TypeDB (app w)); exact H.
    + right; left. destruct (evepraisal.TypeDB (app w)); [| assumption].
      rewrite closed_emit. apply elem_of_app. now left.
    + tauto.
Qed.

Lemma run_captured_accounted ls : forall s s',
  agreement s -> captured_accounted s -> run ls s = Some s' ->
  captured_accounted s'.
Proof.
  induction ls as [| l ls IH]; intros s s' Hagr Hacc Hrun; simpl in Hrun.
  - now injection Hrun as <-.
  - destruct (step l s) as [s1|] eqn:Hstep; [| discriminate].
    eapply IH; [| | exact Hrun].
    + eapply step_agreement; eassumption.
    + eapply step_captured_accounted; eassumption.
Qed.

(** The four statements in a row are one invocation of the callback. *)
Lemma run_statements typeDB w n reqs :
  run [Tick; Tick; Tick; Tick]
    {| world := w; refresher := At104 typeDB; next_generation := n;
       inflight := reqs |}
  = Some {| world := callback typeDB w; refresher := Returned;
            next_generation := n; inflight := reqs |}.
Proof. reflexivity. Qed.

Lemma run_install s :
  refresher s = Returned ->
  run install s
  = Some {| world := callback (Some (next_generation s)) (world s);
            refresher := Returned;
            next_generation := S (next_generation s);
            inflight := inflight s |}.
Proof.
  intros Hret. destruct s as [w pc n reqs]; simpl in Hret; subst pc.
  apply run_statements.
Qed.

Lemma run_reinstall typeDB s :
  refresher s = Returned ->
  run (reinstall typeDB) s
  = Some {| world := callback typeDB (world s);
            refresher := Returned;
            next_generation := next_generation s;
            inflight := inflight s |}.
Proof.
  intros Hret. destruct s as [w pc n reqs]; simpl in Hret; subst pc.
  apply run_statements.
Qed.

(** C1, amended.  Take a request in flight and a type database it
    captured, in a service that has not returned from [appMain] and
    whose fetcher has handed over a new type database each time.  The
    type database is open for as long as it is still installed, that
    is, still reachable from the shared [App]; and it is always in one
    of three places: installed, closed, or in the running callback's
    [oldTypeDB].  Nothing waits for the request.  When it is the
    current type database, the next refresh that runs to completion
    closes it with the request still in flight, and it stays closed
    whatever runs afterwards; an invocation of the callback with the
    same type database closes it and leaves it installed; and so do
    lines 141-146 of the deferred call that runs when [appMain]
    returns. *)
Theorem captured_typedb_open_while_installed :
  forall ls s id r h,
    run ls System0 = Some s ->
    forallb service_step ls = true ->
    inflight s !! id = Some r ->
    h ∈ handles (seen r) ->
    (h ∈ handles (app (world s)) -> h ∉ closed (world s))
    /\ (h ∈ handles (app (world s))
        \/ h ∈ closed (world s)
        \/ oldTypeDB_of (refresher s) = Some h)
    /\ (evepraisal.TypeDB (app (world s)) = Some h ->
        (refresher s = Returned ->
         (exists s',
            run install s = Some s'
            /\ inflight s' !! id = Some r
            /\ (h ∉ handles (app (world s')))
            /\ forall ls' s'',
                 run ls' s' = Some s'' -> h ∈ closed (world s''))
         /\ (exists s',
               run (reinstall (Some h)) s = Some s'
               /\ inflight s' !! id = Some r
               /\ evepraisal.TypeDB (app (world s')) = Some h
               /\ h ∈ closed (world s')))
        /\ (exists s',
              step Return s = Some s'
              /\ inflight s' !! id = Some r
              /\ evepraisal.TypeDB (app (world s')) = Some h
              /\ h ∈ closed (world s'))).
Proof.
  intros ls s id r h Hrun Hservice Hr Hh.
  pose proof (run_invariant ls _ _ Hservice invariant_System0 Hrun) as Hinv.
  pose proof (run_captured_accounted ls _ _ agreement_System0
                captured_accounted_System0 Hrun) as Hacc.
  split; [apply (inv_open s Hinv) |].
  split; [exact (Hacc id r h Hr Hh) |].
  intros Hcur. split; [intros Hret; split |].
  - (* the next refresh *)
    eexists. split; [apply run_install; exact Hret |]. simpl.
    split; [exact Hr |].
    assert (Hclosed : h ∈ closed (callback (Some (next_generation s)) (world s))).
    { rewrite closed_callback, Hcur. apply elem_of_app. right.
      apply list_elem_of_singleton. reflexivity. }
    split.
    + rewrite callback_unfold. simpl. intros Hin.
      assert (Hlt : h < next_generation s).
      { apply (inv_below s Hinv). left. apply elem_of_handles. now left. }
      eapply handles_bound_to in Hin; [| apply new_parser_bound].
      destruct Hin as [Heq | Heq]; injection Heq as Heq; lia.
    + intros ls' s'' Hrun'. apply (run_closed ls' _ _ h Hrun'). exact Hclosed.
  - (* the same type database again *)
    eexists. split; [apply run_reinstall; exact Hret |]. simpl.
    split; [exact Hr |].
    split; [now rewrite callback_unfold |].
    rewrite closed_callback, Hcur. apply elem_of_app. right.
    apply list_elem_of_singleton. reflexivity.
  - (* appMain returns *)
    eexists. split; [reflexivity |]. simpl.
    split; [exact Hr |]. rewrite Hcur. simpl.
    split; [exact Hcur |].
    rewrite closed_emit. apply elem_of_app. right.
    apply list_elem_of_singleton. reflexivity.
Qed.

Lemma captured_typedb_open_while_installed_witness :
  exists s r,
    run (install ++ [Begin 7]) System0 = Some s
    /\ forallb service_step (install ++ [Begin 7]) = true
    /\ inflight s !! 7 = Some r
    /\ 0 ∈ handles (seen r)
    /\ 0 ∈ handles (app (world s))
    /\ (0 ∉ closed (world s)).
Proof.
  set (a := {| evepraisal.TypeDB := Some 0;
               evepraisal.Parser := Some (new_parser (Some 0)) |}).
  set (s := default System0 (run (install ++ [Begin 7]) System0)).
  assert (Hrun : run (install ++ [Begin 7]) System0 = Some s) by evaluate.
  assert (Hservice : forallb service_step (install ++ [Begin 7]) = true)
    by reflexivity.
  assert (Hr : inflight s !! 7 = Some {| seen := a; began_at := Returned |})
    by evaluate.
  assert (Hseen : 0 ∈ handles a) by (apply elem_of_handles; now left).
  assert (Happ : 0 ∈ handles (app (world s))).
  { replace (app (world s)) with a by evaluate. exact Hseen. }
  exists s, {| seen := a; began_at := Returned |}.
  split; [exact Hrun |].
  split; [exact Hservice |].
  split; [exact Hr |].
  split; [exact Hseen |].
  split; [exact Happ |].
  exact (proj1 (captured_typedb_open_while_installed
                  (install ++ [Begin 7]) s 7 _ 0 Hrun Hservice Hr Hseen)
           Happ).
Defined.

(** C2, as the claim states it, fails: the install is two assignments,
    and a request that begins between them finds the new type database
    in [app.TypeDB] and a parser bound to the old one in [app.Parser]. *)
Lemma swap_atomicity_counterexample :
  exists s r,
    run (install ++ [Deliver; Tick; Tick; Begin 7]) System0 = Some s
    /\ inflight s !! 7 = Some r
    /\ evepraisal.TypeDB (seen r) = Some 1
    /\ evepraisal.Parser (seen r) = Some (new_parser (Some 0))
    /\ ~ swap_atomic s.
Proof.
  exists (default System0
            (run (install ++ [Deliver; Tick; Tick; Begin 7]) System0)).
  exists {| seen := {| evepraisal.TypeDB := Some 1;
                       evepraisal.Parser := Some (new_parser (Some 0)) |};
            began_at := At106 (Some 1) (Some 0) |}.
  split; [evaluate |].
  split; [evaluate |].
  split; [reflexivity |].
  split; [reflexivity |].
  intros Hatomic.
  assert (Hone : one_generation
                   {| evepraisal.TypeDB := Some 1;
                      evepraisal.Parser := Some (new_parser (Some 0)) |}).
  { apply (Hatomic 7 {| seen := _; began_at := At106 (Some 1) (Some 0) |}).
    evaluate. }
  unfold one_generation, bound_to in Hone; simpl in Hone.
  apply Forall_inv in Hone. discriminate.
Qed.

(** C2, amended.  The parser a request finds is bound to a single type
    database throughout; a request that begins while no callback is
    between its statements sees one generation, the same in
    [app.TypeDB] and in [app.Parser]; and whenever the callback has
    returned the two fields agree. *)
Theorem request_sees_one_generation_outside_install :
  forall ls s id r,
    run ls System0 = Some s ->
    inflight s !! id = Some r ->
    (exists t, bound_to t (evepraisal.Parser (seen r)))
    /\ (began_at r = Returned -> one_generation (seen r))
    /\ (refresher s = Returned -> one_generation (app (world s))).
Proof.
  intros ls s id r Hrun Hr.
  pose proof (run_agreement ls _ _ agreement_System0 Hrun) as Hagr.
  destruct (agr_requests s Hagr id r Hr) as [Hb Hone].
  repeat split; try assumption.
  intros Hret. pose proof (agr_pc s Hagr) as Hpc.
  rewrite Hret in Hpc. exact Hpc.
Qed.

Lemma request_sees_one_generation_outside_install_witness :
  exists s r,
    run (install ++ [Begin 7]) System0 = Some s
    /\ inflight s !! 7 = Some r
    /\ one_generation (seen r)
    /\ one_generation (app (world s)).
Proof.
  set (a := {| evepraisal.TypeDB := Some 0;
               evepraisal.Parser := Some (new_parser (Some 0)) |}).
  set (s := default System0 (run (install ++ [Begin 7]) System0)).
  assert (Hrun : run (install ++ [Begin 7]) System0 = Some s) by evaluate.
  assert (Hr : inflight s !! 7 = Some {| seen := a; began_at := Returned |})
    by evaluate.
  assert (Hret : refresher s = Returned) by evaluate.
  exists s, {| seen := a; began_at := Returned |}.
  split; [exact Hrun |].
  split; [exact Hr |].
  pose proof (request_sees_one_generation_outside_install
                (install ++ [Begin 7]) s 7 _ Hrun Hr) as (_ & H1 & H2).
  split; [exact (H1 eq_refl) | exact (H2 Hret)].
Defined.

(** ** The dispatcher *)

Section Dispatch.
Import dispatcher.
Variable attempt : parsers.Parser -> string -> typedb.TypeDB -> Attempt.

Lemma dispatch_skips before : forall rest rawText snapshot,
  Forall (declines attempt rawText snapshot) before ->
  dispatch attempt (before ++ rest) rawText snapshot
  = dispatch attempt rest rawText snapshot.
Proof.
  induction before as [| r before IH]; intros rest rawText snapshot Hall.
  - reflexivity.
  - inversion Hall as [| ? ? Hr Hrest]; subst. simpl.
    destruct (attempt r rawText snapshot) as [items | |] eqn:Hat.
    + now destruct (Hr items).
    + now apply IH.
    + now apply IH.
Qed.

(** C4. The dispatcher goes through the registered recognizers in
    registration order and returns the items of the first one that
    reports a match, tagged with that recognizer; so when a recognizer
    registered later would match the same input as well, the items of the
    earlier one are returned. *)
Theorem dispatch_first_match_wins :
  forall (before after : list parsers.Parser) (r : parsers.Parser)
         (rawText : string) (snapshot : typedb.TypeDB) (items : ParsedItems),
    Forall (declines attempt rawText snapshot) before ->
    attempt r rawText snapshot = Matched items ->
    dispatch attempt (before ++ r :: after) rawText snapshot = Recognized items r
    /\ forall between later items',
         attempt later rawText snapshot = Matched items' ->
         dispatch attempt (before ++ r :: between ++ later :: after)
           rawText snapshot
         = Recognized items r.
Proof.
  intros before after r rawText snapshot items Hbefore Hr.
  assert (Hhere : forall rest,
             dispatch attempt (before ++ r :: rest) rawText snapshot
             = Recognized items r).
  { intros rest. rewrite dispatch_skips by assumption. simpl. now rewrite Hr. }
  split; [apply Hhere |].
  intros between later items' _. apply Hhere.
Qed.

End Dispatch.

Lemma dispatch_first_match_wins_witness :
  dispatcher.dispatch stub_attempt
    ([parsers.ParseKillmail; parsers.ParseEFT]
     ++ parsers.ParseFitting :: [parsers.ParseWallet; parsers.ParseAssets])
    "   " (Some 0)
  = dispatcher.Recognized ["fitting"] parsers.ParseFitting.
Proof.
  refine (proj1 (dispatch_first_match_wins stub_attempt
                   [parsers.ParseKillmail; parsers.ParseEFT]
                   [parsers.ParseWallet; parsers.ParseAssets]
                   parsers.ParseFitting "   " (Some 0) ["fitting"] _ _)).
  - repeat constructor; intros items; discriminate.
  - reflexivity.
Defined.

(** ** The process *)

(** A leaf of the case analysis: the fields are read off. *)
Ltac fatal_leaf := repeat split; try reflexivity; try (eexists; reflexivity).
Ltac unfold_bind := unfold mbind, M_bind, mret, M_ret.

Lemma start_stores_cases cfg env :
  match start_stores cfg env Proc0 with
  | Ok _ p =>
      now p = 0%Z /\ shared p = World0
      /\ opened p = [PriceDB; HTTPCache; PriceFetcher; AppraisalDB; StaticFetcher]
      /\ released p = [] /\ serving p = [] /\ drains p = []
      /\ deferred p = deferred_closes /\ stopped p = false
  | Fatalf _ p =>
      stopped p = false /\ released p = [] /\ drains p = []
      /\ opened p `prefix_of`
           [PriceDB; HTTPCache; PriceFetcher; AppraisalDB; StaticFetcher]
  end.
Proof.
  unfold start_stores, must. unfold_bind.
  destruct (fails env NewPriceDB35); cbn; [fatal_leaf |].
  destruct (fails env NewHTTPCache46); cbn; [fatal_leaf |].
  destruct (fails env NewPriceFetcher64); cbn; [fatal_leaf |].
  destruct (fails env NewAppraisalDB76); cbn; [fatal_leaf |].
  destruct (configured (newrelic_license_key cfg));
    [destruct (fails env NewApplication94) |]; cbn; [fatal_leaf | |];
    (destruct (fails env NewStaticFetcher103); cbn; fatal_leaf).
Qed.

Lemma serve_until_stop_cases cfg env p :
  match serve_until_stop cfg env p with
  | Ok _ q =>
      now q = Z.max (now p + startup_time cfg) (stop_at env)
      /\ shared q = foldl (fun w typeDB => callback typeDB w) (shared p) (refreshes env)
      /\ opened q = opened p ++ map Server (listeners cfg) ++ [Server Management]
      /\ released q = released p
      /\ drains q = drains p
      /\ deferred q =
           DeferMgmtClose
           :: map (fun l => DeferShutdown l
                     {| deadline := now p + startup_time cfg + 5000;
                        cancel_at := now p + startup_time cfg + 10000 |})
                (rev (listeners cfg))
           ++ deferred p
      /\ stopped q = true
      /\ find (dies env) (serving p ++ listeners cfg ++ [Management]) = None
  | Fatalf _ q =>
      stopped q = stopped p /\ released q = released p /\ drains q = drains p
      /\ opened q = opened p ++ map Server (listeners cfg) ++ [Server Management]
      /\ exists l, find (dies env) (serving p ++ listeners cfg ++ [Management]) = Some l
  end.
Proof.
  unfold serve_until_stop, mustStartServers, listeners, startup_time.
  destruct (configured (https_addr cfg)); destruct (configured (http_addr cfg));
    repeat (unfold_bind; cbn -[callback Z.add Z.max]); unfold await_stop;
    cbn -[callback Z.add Z.max]; rewrite <- ?app_assoc; cbn -[callback Z.add Z.max];
    rewrite ?Z.add_0_r;
    (destruct (find _ _) as [l|] eqn:Hfind; cbn -[callback Z.add Z.max];
     [ repeat split; try reflexivity; now exists l
     | repeat split; reflexivity ]).
Qed.

Lemma idle_at_bounds t busy :
  (t <= fold_right Z.max t busy)%Z
  /\ forall c, c ∈ busy -> (c <= fold_right Z.max t busy)%Z.
Proof.
  induction busy as [| b busy [IHt IHc]]; simpl.
  - split; [lia |]. intros c Hc. now apply elem_of_nil in Hc.
  - split; [lia |]. intros c Hc.
    apply elem_of_cons in Hc as [-> | Hc]; [lia |].
    specialize (IHc c Hc). lia.
Qed.

Lemma idle_at_le t busy bound :
  (t <= bound)%Z -> (forall c, c ∈ busy -> (c <= bound)%Z) ->
  (fold_right Z.max t busy <= bound)%Z.
Proof.
  intros Ht. induction busy as [| b busy IH]; intros Hall; simpl; [exact Ht |].
  assert (b <= bound)%Z by (apply Hall; apply elem_of_cons; now left).
  assert (fold_right Z.max t busy <= bound)%Z.
  { apply IH. intros c Hc. apply Hall. apply elem_of_cons; now right. }
  lia.
Qed.

Lemma run_all_deferred_cons env d rest p :
  run_all_deferred env (d :: rest) p
  = match run_deferred env d p with
    | Ok _ p' => run_all_deferred env rest p'
    | Fatalf msg p' => Fatalf msg p'
    end.
Proof. reflexivity. Qed.

Lemma run_shutdowns env ctx ls : forall rest p,
  exists q,
    run_all_deferred env (map (fun l => DeferShutdown l ctx) ls ++ rest) p
    = run_all_deferred env rest q
    /\ drains q = drains p ++ drain_in_turn env ctx ls (now p)
    /\ released q = released p ++ map Server ls
    /\ opened q = opened p /\ stopped q = stopped p /\ shared q = shared p
    /\ (now p <= now q)%Z
    /\ now q = default (now p) (last (left <$> drain_in_turn env ctx ls (now p))).
Proof.
  induction ls as [| l ls IH]; intros rest p.
  - exists p. simpl. rewrite !app_nil_r. repeat split; try reflexivity; lia.
  - simpl map. rewrite <- app_comm_cons, run_all_deferred_cons.
    simpl run_deferred. unfold shutdown.
    assert (Hmono : (now p <= fst (Shutdown (now p) ctx (busy_until env l)
                                     (poll_lag env l)))%Z).
    { pose proof (idle_at_bounds (now p) (busy_until env l)) as [Hlo _].
      unfold Shutdown.
      destruct (Z.leb_spec (fold_right Z.max (now p) (busy_until env l)) (now p));
        [simpl; lia |].
      destruct (Z.leb_spec (done_at ctx) (now p)); [simpl; lia |].
      destruct (Z.ltb_spec (fold_right Z.max (now p) (busy_until env l)
                            + Z.max 0 (poll_lag env l)) (done_at ctx));
        simpl; lia. }
    simpl drain_in_turn.
    destruct (Shutdown (now p) ctx (busy_until env l) (poll_lag env l))
      as [t err]; simpl in *.
    edestruct (IH rest) as (q & Hrun & Hd & Hr & Ho & Hs & Hw & Hn & Hlast).
    exists q. rewrite Hrun. simpl in *.
    rewrite Hd, Hr, Ho, Hs, Hw, <- !app_assoc. simpl.
    repeat split; try reflexivity; try lia.
    rewrite Hlast, last_cons. destruct (last _); reflexivity.
Qed.

Lemma run_closes_cases env p :
  match run_all_deferred env deferred_closes p with
  | Ok _ q =>
      released q
      = released p
        ++ StaticFetcher
           :: option_list (CurrentTypeDB <$> evepraisal.TypeDB (app (shared p)))
        ++ [AppraisalDB; PriceFetcher; PriceDB; HTTPCache; PriceDB]
      /\ now q = now p /\ opened q = opened p /\ drains q = drains p
      /\ stopped q = stopped p /\ shared q = shared p
  | Fatalf _ q =>
      (exists rs, released q = released p ++ StaticFetcher :: rs)
      /\ now q = now p /\ opened q = opened p /\ drains q = drains p
      /\ stopped q = stopped p /\ shared q = shared p
  end.
Proof.
  unfold deferred_closes, run_all_deferred, run_deferred, close_current_typedb,
    close, must.
  unfold_bind. cbn.
  destruct (fails env StaticFetcherClose136); cbn; [fatal_leaf |].
  destruct (evepraisal.TypeDB (app (shared p))) as [h|]; cbn;
    [destruct (fails env TypeDBClose142); cbn; [fatal_leaf |] |].
  all: destruct (fails env AppraisalDBClose81); cbn; [fatal_leaf |].
  all: destruct (fails env PriceFetcherClose69); cbn; [fatal_leaf |].
  all: destruct (fails env PriceDBClose58); cbn; [fatal_leaf |].
  all: destruct (fails env HTTPCacheClose51); cbn; [fatal_leaf |].
  all: destruct (fails env PriceDBClose40); cbn; [fatal_leaf |].
  all: rewrite <- ?app_assoc; fatal_leaf.
Qed.

Lemma appMain_cases cfg env :
  let p := snd (appMain cfg env) in
  (fst (appMain cfg env) = Exit1 /\ stopped p = false /\ released p = []
   /\ drains p = [] /\ opened p `prefix_of` acquisition_order cfg)
  \/ (stopped p = true
      /\ find (dies env) (listeners cfg ++ [Management]) = None
      /\ opened p = acquisition_order cfg
      /\ drains p = drain_in_turn env (stop_ctx cfg) (rev (listeners cfg))
                      (signal_time cfg env)
      /\ now p = default (signal_time cfg env) (last (left <$> drains p))
      /\ shared p = foldl (fun w typeDB => callback typeDB w) World0 (refreshes env)
      /\ (exists rs,
            released p
            = Server Management :: map Server (rev (listeners cfg))
              ++ StaticFetcher :: rs)
      /\ (fst (appMain cfg env) = Exit0 ->
          released p
          = Server Management :: map Server (rev (listeners cfg))
            ++ StaticFetcher
               :: option_list (CurrentTypeDB <$> evepraisal.TypeDB (app (shared p)))
            ++ [AppraisalDB; PriceFetcher; PriceDB; HTTPCache; PriceDB])).
Proof.
  cbv zeta. unfold appMain, appMain_body.
  change ((start_stores cfg env ;; serve_until_stop cfg env) Proc0)
    with (match start_stores cfg env Proc0 with
          | Ok _ p' => serve_until_stop cfg env p'
          | Fatalf msg p' => Fatalf msg p'
          end).
  pose proof (start_stores_cases cfg env) as Hstart.
  destruct (start_stores cfg env Proc0) as [[] p0 | msg p0].
  - destruct Hstart as (Hn0 & Hw0 & Ho0 & Hr0 & Hs0 & Hd0 & Hdf0 & Hst0).
    pose proof (serve_until_stop_cases cfg env p0) as Hserve.
    destruct (serve_until_stop cfg env p0) as [[] p1 | msg p1].
    + destruct Hserve as (Hn1 & Hw1 & Ho1 & Hr1 & Hd1 & Hdf1 & Hst1 & Hfind).
      right.
      rewrite Hdf1, run_all_deferred_cons. simpl run_deferred.
      unfold release.
      match goal with |- context [run_all_deferred env _ ?p] => set (p2 := p) end.
      destruct (run_shutdowns env
                  {| deadline := now p0 + startup_time cfg + 5000;
                     cancel_at := now p0 + startup_time cfg + 10000 |}
                  (rev (listeners cfg)) (deferred p0) p2)
        as (q & Hrun & Hdq & Hrq & Hoq & Hsq & Hwq & _ & Hnq).
      rewrite Hrun, Hdf0.
      pose proof (run_closes_cases env q) as Hclose.
      subst p2. simpl in Hdq, Hrq, Hoq, Hsq, Hwq, Hnq.
      rewrite Hn0, Hs0 in *. rewrite Z.add_0_l in *.
      assert (Hsig : now p1 = signal_time cfg env).
      { rewrite Hn1. reflexivity. }
      destruct (run_all_deferred env deferred_closes q) as [[] q' | msg q'];
        simpl; [destruct Hclose as (Hrel & Hn & Ho & Hd & Hs & Hw)
               | destruct Hclose as ((rs & Hrel) & Hn & Ho & Hd & Hs & Hw)].
      * assert (Hdr : drains q' = drain_in_turn env (stop_ctx cfg)
                                   (rev (listeners cfg)) (signal_time cfg env)).
        { rewrite Hd, Hdq, Hd1, Hd0, Hsig. reflexivity. }
        assert (Hsh : shared q' = foldl (fun w typeDB => callback typeDB w)
                                    World0 (refreshes env)).
        { rewrite Hw, Hwq, Hw1, Hw0. reflexivity. }
        assert (Hre : released q'
                      = Server Management :: map Server (rev (listeners cfg))
                        ++ StaticFetcher
                           :: option_list (CurrentTypeDB
                                             <$> evepraisal.TypeDB (app (shared q')))
                        ++ [AppraisalDB; PriceFetcher; PriceDB; HTTPCache; PriceDB]).
        { rewrite Hrel, Hrq, Hr1, Hr0, Hw. simpl. rewrite <- ?app_assoc. reflexivity. }
        split; [congruence |]. split; [exact Hfind |].
        split; [rewrite Ho, Hoq, Ho1, Ho0; reflexivity |].
        split; [exact Hdr |]. split; [rewrite Hdr, Hn, Hnq, Hsig; reflexivity |].
        split; [exact Hsh |].
        split; [rewrite Hre; eauto | intros _; exact Hre].
      * assert (Hdr : drains q' = drain_in_turn env (stop_ctx cfg)
                                   (rev (listeners cfg)) (signal_time cfg env)).
        { rewrite Hd, Hdq, Hd1, Hd0, Hsig. reflexivity. }
        assert (Hsh : shared q' = foldl (fun w typeDB => callback typeDB w)
                                    World0 (refreshes env)).
        { rewrite Hw, Hwq, Hw1, Hw0. reflexivity. }
        split; [congruence |]. split; [exact Hfind |].
        split; [rewrite Ho, Hoq, Ho1, Ho0; reflexivity |].
        split; [exact Hdr |]. split; [rewrite Hdr, Hn, Hnq, Hsig; reflexivity |].
        split; [exact Hsh |].
        split; [| discriminate].
        exists rs. rewrite Hrel, Hrq, Hr1, Hr0. simpl.
        rewrite <- ?app_assoc. reflexivity.
    + destruct Hserve as (Hst1 & Hr1 & Hd1 & Ho1 & _).
      left. simpl. rewrite Hst1, Hr1, Hd1, Ho1, Hst0, Hr0, Hd0, Ho0.
      repeat split; reflexivity.
  - destruct Hstart as (Hst & Hr & Hd & k & Hk).
    left. simpl. repeat split; try assumption.
    exists (k ++ map Server (listeners cfg) ++ [Server Management]).
    unfold acquisition_order. rewrite Hk, <- app_assoc. reflexivity.
Qed.

(** *** Shutdown *)

Lemma Shutdown_expired t ctx busy :
  (done_at ctx <= t)%Z -> forall lag, fst (Shutdown t ctx busy lag) = t.
Proof.
  intros Hdone lag. unfold Shutdown.
  destruct (Z.leb_spec (fold_right Z.max t busy) t); [reflexivity |].
  destruct (Z.leb_spec (done_at ctx) t); [reflexivity | lia].
Qed.

Lemma Shutdown_waits t ctx busy lag :
  (t <= fst (Shutdown t ctx busy lag))%Z.
Proof.
  pose proof (idle_at_bounds t busy) as [Hlo _]. unfold Shutdown.
  destruct (Z.leb_spec (fold_right Z.max t busy) t); [simpl; lia |].
  destruct (Z.leb_spec (done_at ctx) t); [simpl; lia |].
  destruct (Z.ltb_spec (fold_right Z.max t busy + Z.max 0 lag) (done_at ctx));
    simpl; lia.
Qed.

Lemma drain_in_turn_drained env ctx ls : forall t,
  drained <$> drain_in_turn env ctx ls t = ls.
Proof.
  induction ls as [| l ls IH]; intros t; simpl; [reflexivity |].
  now rewrite IH.
Qed.

Lemma drain_in_turn_chained env ctx ls : forall t,
  chained t (drain_in_turn env ctx ls t).
Proof.
  induction ls as [| l ls IH]; intros t; simpl; [exact I |].
  split; [reflexivity | apply IH].
Qed.

Lemma drain_in_turn_expired env ctx ls : forall t,
  (done_at ctx <= t)%Z ->
  Forall (fun d => entered d = t /\ left d = t) (drain_in_turn env ctx ls t).
Proof.
  induction ls as [| l ls IH]; intros t Hdone; simpl; constructor.
  - simpl. split; [reflexivity | now apply Shutdown_expired].
  - rewrite Shutdown_expired by assumption. now apply IH.
Qed.

Lemma last_left_constant t (ds : list Drain) :
  Forall (fun d => entered d = t /\ left d = t) ds ->
  default t (last (left <$> ds)) = t.
Proof.
  induction 1 as [| d ds [_ Hd] _ IH]; [reflexivity |].
  rewrite fmap_cons, last_cons.
  destruct (last (left <$> ds)); simpl in *; congruence.
Qed.

(** C5. What app.go does instead of allowing the grace duration from
    the signal on: the deadline of each listener's shutdown context is
    counted from the moment the context is built, at startup.  Whenever
    the interrupt arrives five seconds or more after startup, every
    [Shutdown] call finds its context done and returns at once, the
    process exits at the signal, and no request that needed any more
    time completes. *)
Theorem shutdown_deadline_counts_from_startup :
  forall cfg env,
    stopped (snd (appMain cfg env)) = true ->
    (startup_time cfg + 5000 <= stop_at env)%Z ->
    now (snd (appMain cfg env)) = stop_at env
    /\ Forall (fun d => entered d = stop_at env /\ left d = stop_at env)
         (drains (snd (appMain cfg env)))
    /\ forall c, (stop_at env < c)%Z -> completes (snd (appMain cfg env)) c = false.
Proof.
  intros cfg env Hstopped Hlate.
  destruct (appMain_cases cfg env)
    as [(_ & Hst & _) | (_ & _ & _ & Hd & Hn & _)]; [congruence |].
  assert (Hsig : signal_time cfg env = stop_at env).
  { unfold signal_time. pose proof (Z.max_spec (startup_time cfg) (stop_at env)).
    assert (0 <= startup_time cfg)%Z
      by (unfold startup_time; destruct (configured _); lia).
    lia. }
  assert (Hall : Forall (fun d => entered d = stop_at env /\ left d = stop_at env)
                   (drains (snd (appMain cfg env)))).
  { rewrite Hd, Hsig. apply drain_in_turn_expired.
    unfold done_at, stop_ctx; simpl. lia. }
  assert (Hnow : now (snd (appMain cfg env)) = stop_at env).
  { rewrite Hn, Hsig. now apply last_left_constant. }
  repeat split; try assumption.
  intros c Hc. unfold completes. rewrite Hnow. apply Z.leb_gt. exact Hc.
Qed.

Lemma shutdown_deadline_counts_from_startup_witness :
  now (snd (appMain cfg_http env_late_signal)) = 60000%Z
  /\ completes (snd (appMain cfg_http env_late_signal)) 61000 = false
  /\ ~ graceful cfg_http env_late_signal.
Proof.
  pose proof (shutdown_deadline_counts_from_startup cfg_http env_late_signal)
    as H.
  assert (Hs : stopped (snd (appMain cfg_http env_late_signal)) = true)
    by (vm_compute; reflexivity).
  assert (Hl : (startup_time cfg_http + 5000 <= stop_at env_late_signal)%Z)
    by (vm_compute; discriminate).
  destruct (H Hs Hl) as (Hnow & _ & Hcut).
  split; [exact Hnow |].
  split; [apply Hcut; reflexivity |].
  intros Hgraceful.
  assert (Hdone : completes (snd (appMain cfg_http env_late_signal)) 61000 = true).
  { apply (Hgraceful HTTP).
    - vm_compute. repeat constructor.
    - vm_compute. repeat constructor.
    - vm_compute. discriminate. }
  rewrite (Hcut 61000%Z eq_refl) in Hdone. discriminate.
Defined.

(** C6, as the claim states it, fails: with two listeners the HTTPS
    listener starts draining only when the HTTP listener's [Shutdown]
    has returned, four seconds after the signal, and by then its own
    context is done. *)
Lemma sequential_drain_counterexample :
  drains (snd (appMain cfg_both env_slow_http))
  = [ {| drained := HTTP; entered := 2000; left := 6000; ctx_err := true |};
      {| drained := HTTPS; entered := 6000; left := 6000; ctx_err := false |} ]
  /\ signal_time cfg_both env_slow_http = 2000%Z
  /\ done_at (stop_ctx cfg_both) = 6000%Z
  /\ ~ drained_concurrently cfg_both env_slow_http.
Proof.
  split; [vm_compute; reflexivity |].
  split; [vm_compute; reflexivity |].
  split; [vm_compute; reflexivity |].
  intros Hconc.
  specialize (Hconc {| drained := HTTPS; entered := 6000; left := 6000;
                       ctx_err := false |}).
  assert (Hin : {| drained := HTTPS; entered := 6000; left := 6000;
                   ctx_err := false |}
                ∈ drains (snd (appMain cfg_both env_slow_http))).
  { vm_compute. repeat constructor. }
  apply Hconc in Hin. vm_compute in Hin. discriminate.
Qed.

(** C6, amended.  On shutdown the listeners are drained one after the
    other, in the reverse of the order in which they were started: the
    first [Shutdown] is entered when the signal has been received, each
    further one when the one before it has returned. *)
Theorem listeners_drained_in_turn :
  forall cfg env,
    stopped (snd (appMain cfg env)) = true ->
    drained <$> drains (snd (appMain cfg env)) = rev (listeners cfg)
    /\ chained (signal_time cfg env) (drains (snd (appMain cfg env))).
Proof.
  intros cfg env Hstopped.
  destruct (appMain_cases cfg env)
    as [(_ & Hst & _) | (_ & _ & _ & Hd & _)]; [congruence |].
  rewrite Hd. split; [apply drain_in_turn_drained |].
  apply drain_in_turn_chained.
Qed.

Lemma listeners_drained_in_turn_witness :
  drained <$> drains (snd (appMain cfg_both env_slow_http)) = [HTTP; HTTPS]
  /\ chained 2000 (drains (snd (appMain cfg_both env_slow_http))).
Proof.
  assert (Hs : stopped (snd (appMain cfg_both env_slow_http)) = true)
    by (vm_compute; reflexivity).
  destruct (listeners_drained_in_turn cfg_both env_slow_http Hs)
    as (Hnames & Hchained).
  split; [exact Hnames | exact Hchained].
Defined.

(** *** The ledger of releases, and failing listeners *)

(** C7, as the claim states it, fails: when [bolt.NewHTTPCache] returns
    an error, [log.Fatalf] ends the process with the price database
    acquired and never released. *)
Lemma fatal_exit_releases_nothing_counterexample :
  fst (appMain cfg_http env_no_httpcache) = Exit1
  /\ opened (snd (appMain cfg_http env_no_httpcache)) = [PriceDB]
  /\ released (snd (appMain cfg_http env_no_httpcache)) = []
  /\ ~ released_in_reverse (snd (appMain cfg_http env_no_httpcache)).
Proof.
  split; [vm_compute; reflexivity |].
  split; [vm_compute; reflexivity |].
  split; [vm_compute; reflexivity |].
  unfold released_in_reverse. vm_compute. discriminate.
Qed.

(** On a normal return the price database is closed twice: app.go
    defers its [Close] at lines 39-44 and again at lines 57-62. *)
Lemma priceDB_closed_twice_on_return :
  fst (appMain cfg_http env_quiet) = Exit0
  /\ released (snd (appMain cfg_http env_quiet))
     = [Server Management; Server HTTP; StaticFetcher; CurrentTypeDB 1;
        AppraisalDB; PriceFetcher; PriceDB; HTTPCache; PriceDB].
Proof. split; vm_compute; reflexivity. Qed.

Lemma counted_listeners ls : List.filter counted (map Server ls) = map Server ls.
Proof. induction ls as [| l ls IH]; simpl; [reflexivity | now rewrite IH]. Qed.

(** C7, amended.  [appMain] acquires in a fixed order: price database,
    HTTP cache, price fetcher, appraisal database, static fetcher, the
    HTTPS and HTTP listeners, the management listener.  When it ends
    before the stop signal ([log.Fatalf]) nothing is released.  When it
    returns, everything it acquired has been released, and, the price
    database and the current type database apart, each resource exactly
    once, in exactly the reverse order of the acquisitions; the current
    type database, if there is one, is closed right after the static
    fetcher. *)
Theorem releases_mirror_acquisitions_on_return :
  forall cfg env,
    let p := snd (appMain cfg env) in
    opened p `prefix_of` acquisition_order cfg
    /\ (stopped p = false -> released p = [])
    /\ (fst (appMain cfg env) = Exit0 ->
        opened p = acquisition_order cfg
        /\ List.filter counted (released p) = rev (List.filter counted (opened p))
        /\ (forall r, r ∈ opened p -> r ∈ released p)
        /\ forall h,
             evepraisal.TypeDB (app (shared p)) = Some h ->
             exists before after,
               released p = before ++ StaticFetcher :: CurrentTypeDB h :: after).
Proof.
  intros cfg env p. subst p.
  destruct (appMain_cases cfg env)
    as [(Hexit & Hst & Hrel & _ & Hpre)
       | (Hst & _ & Hop & _ & _ & _ & _ & Hrel)].
  - split; [exact Hpre |]. split; [intros _; exact Hrel |].
    intros Hret. congruence.
  - split; [rewrite Hop; reflexivity |]. split; [congruence |].
    intros Hret. specialize (Hrel Hret).
    split; [exact Hop |].
    split; [| split];
      [ | | intros h Hh; rewrite Hrel, Hh;
            now exists (Server Management :: map Server (rev (listeners cfg))),
                       [AppraisalDB; PriceFetcher; PriceDB; HTTPCache; PriceDB] ];
      rewrite Hop, Hrel; unfold acquisition_order.
    + destruct (evepraisal.TypeDB (app (shared (snd (appMain cfg env)))));
        simpl; rewrite !List.filter_app, !counted_listeners; simpl;
        rewrite !rev_app_distr, map_rev; simpl;
        rewrite <- ?app_assoc; reflexivity.
    + intros r Hin. apply list_elem_of_In in Hin. apply list_elem_of_In.
      simpl in Hin. rewrite in_app_iff in Hin. simpl in Hin.
      simpl. rewrite in_app_iff. simpl. rewrite in_app_iff. simpl.
      rewrite map_rev, <- in_rev.
      intuition auto.
Qed.

(** C9, as the claim states it, fails: app.go has no notion of a
    required listener; with no listener required, an HTTP listener that
    cannot bind still ends the process. *)
Lemma unrequired_listener_failure_counterexample :
  HTTP ∈ listeners cfg_http ++ [Management]
  /\ fst (appMain cfg_http env_bind_fails) = Exit1
  /\ stopped (snd (appMain cfg_http env_bind_fails)) = false
  /\ ~ fatal_only_if_required (fun _ => false) cfg_http env_bind_fails.
Proof.
  assert (Hin : HTTP ∈ listeners cfg_http ++ [Management])
    by (vm_compute; repeat constructor).
  split; [exact Hin |].
  split; [vm_compute; reflexivity |].
  split; [vm_compute; reflexivity |].
  intros Hreq.
  specialize (Hreq HTTP _ Hin eq_refl eq_refl).
  vm_compute in Hreq. discriminate.
Qed.

(** C9, amended.  A listener that was started (HTTPS, HTTP or
    management) and whose serve call returns an error other than
    [ErrServerClosed] is always fatal to the whole process: it ends in
    [log.Fatalf] before the stop signal, with nothing released; the only
    listeners left out are those whose address is not configured, which
    are not started at all. *)
Theorem listener_failure_is_fatal :
  forall cfg env l msg,
    l ∈ listeners cfg ++ [Management] ->
    serve env l = Some (OtherErr msg) ->
    fst (appMain cfg env) = Exit1
    /\ stopped (snd (appMain cfg env)) = false
    /\ released (snd (appMain cfg env)) = []
    /\ (configured (https_addr cfg) = false -> HTTPS ∉ listeners cfg)
    /\ (configured (http_addr cfg) = false -> HTTP ∉ listeners cfg).
Proof.
  intros cfg env l msg Hin Hserve.
  assert (Hdies : dies env l = true).
  { unfold dies. rewrite Hserve. reflexivity. }
  destruct (appMain_cases cfg env)
    as [(Hexit & Hst & Hrel & _) | (_ & Hfind & _)].
  - repeat split; try assumption.
    + intros Hc Hh. unfold listeners in Hh. rewrite Hc in Hh. simpl in Hh.
      destruct (configured (http_addr cfg)); simpl in Hh.
      * apply list_elem_of_singleton in Hh. discriminate.
      * now apply elem_of_nil in Hh.
    + intros Hc Hh. unfold listeners in Hh. rewrite Hc, app_nil_r in Hh.
      destruct (configured (https_addr cfg)); simpl in Hh.
      * apply list_elem_of_singleton in Hh. discriminate.
      * now apply elem_of_nil in Hh.
  - exfalso. apply list_elem_of_In in Hin.
    pose proof (find_none _ _ Hfind l Hin) as Hno. congruence.
Qed.

Lemma listener_failure_is_fatal_witness :
  fst (appMain cfg_http env_bind_fails) = Exit1
  /\ released (snd (appMain cfg_http env_bind_fails)) = [].
Proof.
  assert (Hin : HTTP ∈ listeners cfg_http ++ [Management])
    by (vm_compute; repeat constructor).
  destruct (listener_failure_is_fatal cfg_http env_bind_fails HTTP _ Hin eq_refl)
    as (Hexit & _ & Hrel & _).
  split; [exact Hexit | exact Hrel].
Defined.

Lemma releases_mirror_acquisitions_on_return_witness :
  fst (appMain cfg_both env_quiet) = Exit0
  /\ opened (snd (appMain cfg_both env_quiet))
     = [PriceDB; HTTPCache; PriceFetcher; AppraisalDB; StaticFetcher;
        Server HTTPS; Server HTTP; Server Management]
  /\ List.filter counted (released (snd (appMain cfg_both env_quiet)))
     = [Server Management; Server HTTP; Server HTTPS; StaticFetcher;
        AppraisalDB; PriceFetcher; HTTPCache].
Proof.
  assert (Hret : fst (appMain cfg_both env_quiet) = Exit0)
    by (vm_compute; reflexivity).
  destruct (releases_mirror_acquisitions_on_return cfg_both env_quiet)
    as (_ & _ & Hledger).
  destruct (Hledger Hret) as (Hopened & Hmirror & _ & _).
  split; [exact Hret |].
  split; [exact Hopened |].
  rewrite Hmirror, Hopened. reflexivity.
Defined.

(** * Further properties of app.go *)

(** ** Sequences of refreshes *)

Lemma omap_id_cons (t : typedb.TypeDB) ts :
  omap id (t :: ts) = option_list t ++ omap id ts.
Proof. destruct t; reflexivity. Qed.

Lemma last_cons_default {A} (l : list A) : forall a d d',
  List.last (a :: l) d = List.last (a :: l) d'.
Proof.
  induction l as [| b l IH]; intros a d d'; [reflexivity |].
  change (List.last (b :: l) d = List.last (b :: l) d'). apply IH.
Qed.

(** X1. After any sequence of invocations of the refresh callback, the
    type databases closed by it are exactly the ones it replaced, once
    per replacement and in order: the one that was current before the
    sequence, then every delivered one but the last (nil ones apart);
    the last one delivered is the current one. *)
Theorem callbacks_close_every_replaced_typedb :
  forall (typeDBs : list typedb.TypeDB) (w : World),
    closed (run_callbacks typeDBs w)
    = closed w ++ omap id (removelast (evepraisal.TypeDB (app w) :: typeDBs))
    /\ evepraisal.TypeDB (app (run_callbacks typeDBs w))
       = List.last typeDBs (evepraisal.TypeDB (app w)).
Proof.
  induction typeDBs as [| t ts IH]; intros w.
  - simpl. rewrite app_nil_r. split; reflexivity.
  - unfold run_callbacks in *. simpl foldl.
    destruct (IH (callback t w)) as [Hc Hl]. rewrite Hc, Hl.
    rewrite closed_callback, callback_unfold. simpl evepraisal.TypeDB.
    split.
    + change (removelast (evepraisal.TypeDB (app w) :: t :: ts))
        with (evepraisal.TypeDB (app w) :: removelast (t :: ts)).
      rewrite omap_id_cons, <- app_assoc. reflexivity.
    + destruct ts as [| t0 ts]; [reflexivity |].
      change (List.last (t :: t0 :: ts) (evepraisal.TypeDB (app w)))
        with (List.last (t0 :: ts) (evepraisal.TypeDB (app w))).
      apply last_cons_default.
Qed.

(** X2. The callback does not compare the type database it is given
    with the current one: invoked with the type database that is already
    current, it closes it and leaves it installed, so [app.TypeDB] and
    the parser then refer to a closed type database. *)
Theorem redelivery_closes_current_typedb :
  forall (w : World) (h : nat),
    evepraisal.TypeDB (app w) = Some h ->
    evepraisal.TypeDB (app (callback (Some h) w)) = Some h
    /\ h ∈ closed (callback (Some h) w)
    /\ bound_to (Some h) (evepraisal.Parser (app (callback (Some h) w))).
Proof.
  intros w h Hcur. rewrite closed_callback, Hcur, callback_unfold. simpl.
  split; [reflexivity |]. split.
  - apply elem_of_app. right. apply list_elem_of_singleton. reflexivity.
  - repeat constructor.
Qed.

Lemma redelivery_closes_current_typedb_witness :
  0 ∈ closed (callback (Some 0) (callback (Some 0) World0)).
Proof.
  exact (proj1 (proj2 (redelivery_closes_current_typedb
                         (callback (Some 0) World0) 0 eq_refl))).
Defined.

(** ** The outcome of the process *)

Lemma start_stores_outcome cfg env :
  match start_stores cfg env Proc0 with
  | Ok _ _ => startup_ok cfg env = true
  | Fatalf _ _ => startup_ok cfg env = false
  end.
Proof.
  unfold startup_ok, start_stores, must. unfold_bind.
  destruct (fails env NewPriceDB35); cbn; [reflexivity |].
  destruct (fails env NewHTTPCache46); cbn; [reflexivity |].
  destruct (fails env NewPriceFetcher64); cbn; [reflexivity |].
  destruct (fails env NewAppraisalDB76); cbn; [reflexivity |].
  destruct (configured (newrelic_license_key cfg));
    [destruct (fails env NewApplication94) |]; cbn; [reflexivity | |];
    (destruct (fails env NewStaticFetcher103); cbn; reflexivity).
Qed.

Lemma run_closes_outcome env p :
  match run_all_deferred env deferred_closes p with
  | Ok _ q =>
      closes_ok env (evepraisal.TypeDB (app (shared p))) = true
      /\ released q
         = released p
           ++ StaticFetcher
              :: option_list (CurrentTypeDB <$> evepraisal.TypeDB (app (shared p)))
           ++ [AppraisalDB; PriceFetcher; PriceDB; HTTPCache; PriceDB]
  | Fatalf _ q =>
      closes_ok env (evepraisal.TypeDB (app (shared p))) = false
      /\ (exists k,
            released p
            ++ StaticFetcher
               :: option_list (CurrentTypeDB <$> evepraisal.TypeDB (app (shared p)))
            ++ [AppraisalDB; PriceFetcher; PriceDB; HTTPCache; PriceDB]
            = released q ++ k)
      /\ (fails env StaticFetcherClose136 = true ->
          released q = released p ++ [StaticFetcher])
  end.
Proof.
  unfold closes_ok, deferred_closes, run_all_deferred, run_deferred,
    close_current_typedb, close, must.
  unfold_bind. cbn.
  destruct (fails env StaticFetcherClose136); cbn;
    [split; [reflexivity | split; [eexists; rewrite <- app_assoc; reflexivity
                                  | reflexivity]] |].
  destruct (evepraisal.TypeDB (app (shared p))) as [h|]; cbn;
    [destruct (fails env TypeDBClose142); cbn |].
  all: try (destruct (fails env AppraisalDBClose81); cbn).
  all: try (destruct (fails env PriceFetcherClose69); cbn).
  all: try (destruct (fails env PriceDBClose58); cbn).
  all: try (destruct (fails env HTTPCacheClose51); cbn).
  all: try (destruct (fails env PriceDBClose40); cbn).
  all: rewrite <- ?app_assoc; cbn.
  all: repeat split; try reflexivity; try discriminate;
    try (eexists; rewrite <- ?app_assoc; cbn; reflexivity).
Qed.

Lemma appMain_outcome cfg env :
  (stopped (snd (appMain cfg env)) = false
   /\ fst (appMain cfg env) = Exit1
   /\ (startup_ok cfg env = false
       \/ exists l, find (dies env) (listeners cfg ++ [Management]) = Some l))
  \/ (startup_ok cfg env = true
      /\ find (dies env) (listeners cfg ++ [Management]) = None
      /\ exists q,
           released q = Server Management :: map Server (rev (listeners cfg))
           /\ shared q = run_callbacks (refreshes env) World0
           /\ stopped q = true
           /\ appMain cfg env
              = match run_all_deferred env deferred_closes q with
                | Ok _ q' => (Exit0, q')
                | Fatalf _ q' => (Exit1, q')
                end).
Proof.
  unfold appMain, appMain_body.
  change ((start_stores cfg env ;; serve_until_stop cfg env) Proc0)
    with (match start_stores cfg env Proc0 with
          | Ok _ p' => serve_until_stop cfg env p'
          | Fatalf msg p' => Fatalf msg p'
          end).
  pose proof (start_stores_cases cfg env) as Hstart.
  pose proof (start_stores_outcome cfg env) as Hok.
  destruct (start_stores cfg env Proc0) as [[] p0 | msg p0].
  - destruct Hstart as (Hn0 & Hw0 & Ho0 & Hr0 & Hs0 & Hd0 & Hdf0 & Hst0).
    pose proof (serve_until_stop_cases cfg env p0) as Hserve.
    destruct (serve_until_stop cfg env p0) as [[] p1 | msg p1].
    + destruct Hserve as (Hn1 & Hw1 & Ho1 & Hr1 & Hd1 & Hdf1 & Hst1 & Hfind).
      right. rewrite Hs0 in Hfind.
      split; [exact Hok |]. split; [exact Hfind |].
      rewrite Hdf1, run_all_deferred_cons. simpl run_deferred. unfold release.
      match goal with |- context [run_all_deferred env _ ?p] => set (p2 := p) end.
      destruct (run_shutdowns env
                  {| deadline := now p0 + startup_time cfg + 5000;
                     cancel_at := now p0 + startup_time cfg + 10000 |}
                  (rev (listeners cfg)) (deferred p0) p2)
        as (q & Hrun & _ & Hrq & _ & Hsq & Hwq & _).
      exists q. rewrite Hrun, Hdf0. subst p2. simpl in Hrq, Hsq, Hwq.
      rewrite Hrq, Hr1, Hr0, Hsq, Hst1, Hwq, Hw1, Hw0.
      repeat split; reflexivity.
    + destruct Hserve as (Hst1 & _ & _ & _ & l & Hl).
      left. simpl. rewrite Hst1, Hst0, Hs0 in *.
      split; [reflexivity |]. split; [reflexivity |]. right. now exists l.
  - destruct Hstart as (Hst & _).
    left. simpl. split; [exact Hst |]. split; [reflexivity |]. now left.
Qed.

Lemma no_listener_dies cfg env :
  find (dies env) (listeners cfg ++ [Management]) = None
  <-> forall l msg,
        l ∈ listeners cfg ++ [Management] -> serve env l <> Some (OtherErr msg).
Proof.
  split.
  - intros Hfind l msg Hin Hserve. apply list_elem_of_In in Hin.
    pose proof (find_none _ _ Hfind l Hin) as Hno.
    unfold dies in Hno. rewrite Hserve in Hno. discriminate.
  - intros Hall. destruct (find _ _) as [l|] eqn:Hfind; [| reflexivity].
    apply find_some in Hfind as [Hin Hd]. apply list_elem_of_In in Hin.
    unfold dies, serve_goroutine in Hd.
    destruct (serve env l) as [[| msg] |] eqn:Hs; try discriminate.
    now destruct (Hall l msg Hin).
Qed.

Lemma last_refresh env :
  evepraisal.TypeDB (app (run_callbacks (refreshes env) World0))
  = List.last (refreshes env) None.
Proof. apply (callbacks_close_every_replaced_typedb (refreshes env) World0). Qed.

(** X9. [appMain] gets to the stop signal exactly when no call of the
    startup returns an error ([newrelic.NewApplication] counting only
    when a license key is configured) and no started listener's serve
    call has returned an error other than [ErrServerClosed]. *)
Theorem signal_reached_iff_startup_and_listeners_ok :
  forall cfg env,
    stopped (snd (appMain cfg env)) = true
    <-> startup_ok cfg env = true
        /\ forall l msg,
             l ∈ listeners cfg ++ [Management] ->
             serve env l <> Some (OtherErr msg).
Proof.
  intros cfg env. rewrite <- no_listener_dies.
  destruct (appMain_outcome cfg env)
    as [(Hst & _ & Hwhy) | (Hok & Hfind & q & _ & _ & Hsq & Hmain)].
  - split; [congruence |]. intros [Hok Hfind].
    destruct Hwhy as [Hno | [l Hl]]; congruence.
  - split; [now intros _ |]. intros _. rewrite Hmain.
    pose proof (run_closes_cases env q) as Hc.
    destruct (run_all_deferred env deferred_closes q) as [[] q' | msg q'];
      simpl; destruct Hc as (_ & _ & _ & _ & Hs & _); congruence.
Qed.

(** X10. [appMain] returns (exit status 0) exactly when the startup
    succeeds, no listener fails before the signal, and no deferred
    [Close] returns an error, where [app.TypeDB.Close] counts only when
    the last refresh left a type database installed. *)
Theorem clean_exit_iff_nothing_fails :
  forall cfg env,
    fst (appMain cfg env) = Exit0
    <-> startup_ok cfg env = true
        /\ (forall l msg,
              l ∈ listeners cfg ++ [Management] ->
              serve env l <> Some (OtherErr msg))
        /\ closes_ok env (List.last (refreshes env) None) = true.
Proof.
  intros cfg env. rewrite <- no_listener_dies, <- last_refresh.
  destruct (appMain_outcome cfg env)
    as [(_ & Hexit & Hwhy) | (Hok & Hfind & q & _ & Hwq & _ & Hmain)].
  - split; [congruence |]. intros (Hok & Hfind & _).
    destruct Hwhy as [Hno | [l Hl]]; congruence.
  - rewrite Hmain, <- Hwq.
    pose proof (run_closes_outcome env q) as Hc.
    destruct (run_all_deferred env deferred_closes q) as [[] q' | msg q'];
      simpl.
    + destruct Hc as [Hc _]. tauto.
    + destruct Hc as [Hc _]. split; [discriminate |].
      intros (_ & _ & Hyes). congruence.
Qed.

Lemma appMain_after_signal cfg env :
  stopped (snd (appMain cfg env)) = true ->
  exists q,
    released q = Server Management :: map Server (rev (listeners cfg))
    /\ shared q = run_callbacks (refreshes env) World0
    /\ appMain cfg env
       = match run_all_deferred env deferred_closes q with
         | Ok _ q' => (Exit0, q')
         | Fatalf _ q' => (Exit1, q')
         end.
Proof.
  intros Hst.
  destruct (appMain_outcome cfg env)
    as [(Hno & _) | (_ & _ & q & Hrq & Hwq & _ & Hmain)]; [congruence |].
  now exists q.
Qed.

Lemma omap_typedb_of_servers ls : omap typedb_of (map Server ls) = [].
Proof. induction ls as [| l ls IH]; [reflexivity | exact IH]. Qed.

Lemma omap_id_some (hs : list nat) : omap id (Some <$> hs) = hs.
Proof.
  induction hs as [| h hs IH]; [reflexivity |].
  change (h :: omap id (Some <$> hs) = h :: hs). now rewrite IH.
Qed.

Lemma removelast_fmap {A B} (f : A -> B) (l : list A) :
  removelast (f <$> l) = f <$> removelast l.
Proof.
  induction l as [| a l IH]; [reflexivity |].
  destruct l as [| b l]; [reflexivity |].
  change (f a :: removelast (f <$> b :: l) = f a :: (f <$> removelast (b :: l))).
  now rewrite IH.
Qed.

Lemma last_map {A B} (f : A -> B) (l : list A) : forall d,
  List.last (map f l) (f d) = f (List.last l d).
Proof.
  induction l as [| a l IH]; intros d; [reflexivity |].
  destruct l as [| b l]; [reflexivity |].
  change (List.last (map f (b :: l)) (f d) = f (List.last (b :: l) d)).
  apply IH.
Qed.

Lemma omap_typedb_of_releases ls (t : typedb.TypeDB) :
  omap typedb_of
    ((Server Management :: map Server ls)
     ++ StaticFetcher :: option_list (CurrentTypeDB <$> t)
     ++ [AppraisalDB; PriceFetcher; PriceDB; HTTPCache; PriceDB])
  = option_list t.
Proof.
  rewrite omap_app.
  change (Server Management :: map Server ls) with (map Server (Management :: ls)).
  rewrite omap_typedb_of_servers. destruct t; reflexivity.
Qed.

(** X3. When [appMain] returns after the stop signal, every type
    database the static fetcher delivered has been closed, once per
    delivery and in order of delivery: the replaced ones by the callback,
    the current one by the deferred call of lines 141-146. *)
Theorem every_delivered_typedb_closed_on_return :
  forall cfg env (hs : list nat),
    refreshes env = Some <$> hs ->
    fst (appMain cfg env) = Exit0 ->
    closed (shared (snd (appMain cfg env)))
    ++ omap typedb_of (released (snd (appMain cfg env)))
    = hs.
Proof.
  intros cfg env hs Hhs Hexit.
  assert (Hst : stopped (snd (appMain cfg env)) = true).
  { destruct (appMain_outcome cfg env) as [(_ & He & _) | (_ & _ & q & _ & _ & Hsq & Hmain)];
      [congruence |].
    rewrite Hmain. pose proof (run_closes_cases env q) as Hc.
    destruct (run_all_deferred env deferred_closes q) as [[] q' | msg q'];
      simpl; destruct Hc as (_ & _ & _ & _ & Hs & _); congruence. }
  destruct (appMain_after_signal cfg env Hst) as (q & Hrq & Hwq & Hmain).
  rewrite Hmain in *.
  pose proof (run_closes_cases env q) as Hc.
  destruct (run_all_deferred env deferred_closes q) as [[] q' | msg q'];
    simpl in *; [| discriminate].
  destruct Hc as (Hrel & _ & _ & _ & _ & Hw).
  rewrite Hrel, Hrq, Hw, Hwq.
  destruct (callbacks_close_every_replaced_typedb (refreshes env) World0)
    as [Hclosed Hlast].
  rewrite Hclosed, Hlast, Hhs. simpl closed. simpl app.
  change (evepraisal.TypeDB evepraisal.zero) with (@None nat).
  rewrite omap_typedb_of_releases.
  destruct hs as [| h hs]; [reflexivity |].
  change (removelast (None :: (Some <$> h :: hs)))
    with (@None nat :: removelast (Some <$> h :: hs)).
  rewrite removelast_fmap.
  change (omap id (None :: (Some <$> removelast (h :: hs))))
    with (omap id (Some <$> removelast (h :: hs))).
  rewrite omap_id_some.
  change (List.last (Some <$> h :: hs) None)
    with (List.last (Some h :: map Some hs) None).
  rewrite (last_cons_default _ _ None (Some h)).
  change (Some h :: map Some hs) with (map Some (h :: hs)).
  rewrite last_map. change (closed World0) with (@nil nat).
  rewrite app_nil_l. unfold option_list.
  symmetry. apply (app_removelast_last h). discriminate.
Qed.

Lemma every_delivered_typedb_closed_on_return_witness :
  closed (shared (snd (appMain cfg_both env_quiet)))
  ++ omap typedb_of (released (snd (appMain cfg_both env_quiet)))
  = [0; 1].
Proof.
  refine (every_delivered_typedb_closed_on_return cfg_both env_quiet [0; 1] _ _).
  - reflexivity.
  - vm_compute. reflexivity.
Defined.

(** X4. When the deferred [staticFetcher.Close] returns an error,
    [log.Fatalf] ends the process there: the listeners have been shut
    down, but the current type database, the appraisal database, the
    price fetcher, the HTTP cache and the price database are never
    closed. *)
Theorem failed_fetcher_close_leaves_stores_open :
  forall cfg env,
    stopped (snd (appMain cfg env)) = true ->
    fails env StaticFetcherClose136 = true ->
    fst (appMain cfg env) = Exit1
    /\ released (snd (appMain cfg env))
       = Server Management :: map Server (rev (listeners cfg)) ++ [StaticFetcher].
Proof.
  intros cfg env Hst Hfail.
  destruct (appMain_after_signal cfg env Hst) as (q & Hrq & _ & Hmain).
  rewrite Hmain.
  pose proof (run_closes_outcome env q) as Hc.
  destruct (run_all_deferred env deferred_closes q) as [[] q' | msg q']; simpl.
  - destruct Hc as [Hc _]. unfold closes_ok in Hc. rewrite Hfail in Hc.
    discriminate.
  - destruct Hc as (_ & _ & Hrel). rewrite (Hrel Hfail), Hrq.
    split; reflexivity.
Qed.

Lemma failed_fetcher_close_leaves_stores_open_witness :
  fst (appMain cfg_both env_fetcher_close_fails) = Exit1
  /\ released (snd (appMain cfg_both env_fetcher_close_fails))
     = [Server Management; Server HTTP; Server HTTPS; StaticFetcher].
Proof.
  apply (failed_fetcher_close_leaves_stores_open cfg_both env_fetcher_close_fails).
  - vm_compute. reflexivity.
  - reflexivity.
Defined.

(** X5. Once the stop signal has been received, the releases follow
    one fixed order, whatever fails: what has been released is always a
    prefix of management listener, listeners in reverse, static fetcher,
    current type database, appraisal database, price fetcher, price
    database, HTTP cache, price database; and all listeners and the
    static fetcher are always among them. *)
Theorem releases_follow_one_order :
  forall cfg env,
    stopped (snd (appMain cfg env)) = true ->
    released (snd (appMain cfg env))
      `prefix_of` full_releases cfg (List.last (refreshes env) None)
    /\ (Server Management :: map Server (rev (listeners cfg)) ++ [StaticFetcher])
         `prefix_of` released (snd (appMain cfg env)).
Proof.
  intros cfg env Hst.
  destruct (appMain_after_signal cfg env Hst) as (q & Hrq & Hwq & Hmain).
  rewrite Hmain, <- last_refresh, <- Hwq. unfold full_releases.
  pose proof (run_closes_outcome env q) as Hc.
  pose proof (run_closes_cases env q) as Hf.
  destruct (run_all_deferred env deferred_closes q) as [[] q' | msg q']; simpl.
  - destruct Hc as [_ Hrel]. rewrite Hrel, Hrq. split; [reflexivity |].
    eexists. rewrite <- !app_comm_cons, <- app_assoc. reflexivity.
  - destruct Hc as (_ & [k Hk] & _). destruct Hf as ([rs Hrs] & _).
    rewrite Hrq in Hk, Hrs. split.
    + exists k. exact Hk.
    + exists rs. rewrite Hrs, <- !app_comm_cons, <- app_assoc. reflexivity.
Qed.

Lemma releases_follow_one_order_witness :
  released (snd (appMain cfg_both env_fetcher_close_fails))
    `prefix_of` full_releases cfg_both (Some 1).
Proof.
  refine (proj1 (releases_follow_one_order cfg_both env_fetcher_close_fails _)).
  vm_compute. reflexivity.
Defined.

(** X6. When [appMain] returns, the last four releases are price
    fetcher, price database, HTTP cache, price database: [priceDB.Close]
    is called twice, before and after [httpCache.Close], and neither
    store is closed before the price fetcher that uses them. *)
Theorem price_database_closed_twice_on_return :
  forall cfg env,
    fst (appMain cfg env) = Exit0 ->
    exists before,
      released (snd (appMain cfg env))
      = before ++ [PriceFetcher; PriceDB; HTTPCache; PriceDB]
      /\ (PriceDB ∉ before) /\ (HTTPCache ∉ before) /\ (PriceFetcher ∉ before).
Proof.
  intros cfg env Hexit.
  destruct (appMain_cases cfg env)
    as [(He & _) | (_ & _ & _ & _ & _ & _ & _ & Hrel)]; [congruence |].
  rewrite (Hrel Hexit).
  exists (Server Management :: map Server (rev (listeners cfg))
          ++ StaticFetcher
             :: option_list (CurrentTypeDB
                               <$> evepraisal.TypeDB
                                     (app (shared (snd (appMain cfg env)))))
          ++ [AppraisalDB]).
  split.
  - simpl. rewrite <- !app_assoc. simpl. rewrite <- !app_assoc. reflexivity.
  - assert (Hno : forall r,
              (forall l, r <> Server l) -> r <> StaticFetcher ->
              (forall h, r <> CurrentTypeDB h) -> r <> AppraisalDB ->
              r ∉ Server Management :: map Server (rev (listeners cfg))
                  ++ StaticFetcher
                     :: option_list (CurrentTypeDB
                                       <$> evepraisal.TypeDB
                                             (app (shared (snd (appMain cfg env)))))
                  ++ [AppraisalDB]).
    { intros r Hs Hf Ht Ha Hin.
      apply elem_of_cons in Hin as [-> | Hin]; [now apply (Hs Management) |].
      apply elem_of_app in Hin as [Hin | Hin].
      - apply list_elem_of_In, in_map_iff in Hin as (l & <- & _).
        now apply (Hs l).
      - apply elem_of_cons in Hin as [-> | Hin]; [now apply Hf |].
        apply elem_of_app in Hin as [Hin | Hin].
        + destruct (evepraisal.TypeDB _) as [h|]; simpl in Hin.
          * apply list_elem_of_singleton in Hin. now apply (Ht h).
          * now apply elem_of_nil in Hin.
        + apply list_elem_of_singleton in Hin. now apply Ha. }
    repeat split; apply Hno; intros; discriminate.
Qed.

Lemma price_database_closed_twice_on_return_witness :
  exists before,
    released (snd (appMain cfg_both env_quiet))
    = before ++ [PriceFetcher; PriceDB; HTTPCache; PriceDB]
    /\ (PriceDB ∉ before) /\ (HTTPCache ∉ before) /\ (PriceFetcher ∉ before).
Proof.
  apply (price_database_closed_twice_on_return cfg_both env_quiet).
  vm_compute. reflexivity.
Defined.

(** ** [mustStartServers] *)

Lemma configured_spec addr : configured addr = true <-> addr <> "".
Proof.
  unfold configured. rewrite negb_true_iff. apply String.eqb_neq.
Qed.

Ltac no_member H :=
  repeat (apply elem_of_cons in H as [H | H]; [discriminate |]);
  now apply elem_of_nil in H.

(** X7. [mustStartServers] never fails by itself.  It starts and
    returns the HTTPS listener exactly when [https_addr] is not empty and
    the HTTP listener exactly when [http_addr] is not empty, each at most
    once and never the management listener; it defers nothing, and it
    takes one second exactly when it starts the HTTPS listener. *)
Theorem mustStartServers_starts_what_is_configured :
  forall cfg p,
    exists servers q,
      mustStartServers cfg p = Ok servers q
      /\ (HTTPS ∈ servers <-> https_addr cfg <> "")
      /\ (HTTP ∈ servers <-> http_addr cfg <> "")
      /\ (Management ∉ servers)
      /\ NoDup servers
      /\ serving q = serving p ++ servers
      /\ opened q = opened p ++ map Server servers
      /\ deferred q = deferred p
      /\ now q = (now p + if configured (https_addr cfg) then 1000 else 0)%Z.
Proof.
  intros cfg p. unfold mustStartServers. unfold_bind.
  pose proof (configured_spec (https_addr cfg)) as Hs'.
  pose proof (configured_spec (http_addr cfg)) as Hp'.
  destruct (configured (https_addr cfg)); destruct (configured (http_addr cfg));
    cbn -[Z.add]; eexists; eexists; (split; [reflexivity |]);
    rewrite <- ?app_assoc, ?app_nil_r, ?Z.add_0_r; cbn -[Z.add].
  all: split;
    [split; intros H;
     first [ now apply Hs' | no_member H | now repeat constructor
           | apply Hs' in H; discriminate ] |].
  all: split;
    [split; intros H;
     first [ now apply Hp' | no_member H | now repeat constructor
           | apply Hp' in H; discriminate ] |].
  all: split; [intros H; no_member H |].
  all: split;
    [repeat (constructor; [intros H; no_member H |]); constructor |].
  all: repeat split; reflexivity.
Qed.

(** ** Shutdown while the contexts are live *)

Lemma Shutdown_bounds t ctx busy lag :
  (t <= fst (Shutdown t ctx busy lag) <= Z.max t (done_at ctx))%Z
  /\ (forall c, c ∈ busy -> (c <= done_at ctx)%Z ->
                (c <= fst (Shutdown t ctx busy lag))%Z)
  /\ (snd (Shutdown t ctx busy lag) = false ->
      forall c, c ∈ busy -> (c <= fst (Shutdown t ctx busy lag))%Z).
Proof.
  pose proof (idle_at_bounds t busy) as [Hlo Hcs]. unfold Shutdown.
  destruct (Z.leb_spec (fold_right Z.max t busy) t) as [Hidle | Hbusy]; simpl.
  - split; [lia |]. split; intros; match goal with
      | Hc : _ ∈ busy |- _ => specialize (Hcs _ Hc) end; lia.
  - destruct (Z.leb_spec (done_at ctx) t); simpl.
    + split; [lia |]. split; [intros; lia | discriminate].
    + destruct (Z.ltb_spec (fold_right Z.max t busy + Z.max 0 lag) (done_at ctx));
        simpl.
      * split; [lia |]. split; intros; match goal with
          | Hc : _ ∈ busy |- _ => specialize (Hcs _ Hc) end; lia.
      * split; [lia |]. split; [intros; lia | discriminate].
Qed.

Lemma drain_in_turn_bounds env ctx ls : forall t,
  (t <= default t (last (left <$> drain_in_turn env ctx ls t))
     <= Z.max t (done_at ctx))%Z
  /\ (forall l c, l ∈ ls -> c ∈ busy_until env l -> (c <= done_at ctx)%Z ->
        (c <= default t (last (left <$> drain_in_turn env ctx ls t)))%Z)
  /\ Forall (fun d => ctx_err d = false ->
                      forall c, c ∈ busy_until env (drained d) -> (c <= left d)%Z)
       (drain_in_turn env ctx ls t).
Proof.
  induction ls as [| l ls IH]; intros t.
  - simpl. split; [lia |]. split; [| constructor].
    intros l c Hl. now apply elem_of_nil in Hl.
  - simpl drain_in_turn.
    destruct (Shutdown_bounds t ctx (busy_until env l) (poll_lag env l))
      as (Hto & Hin & Hnil).
    set (t1 := fst (Shutdown t ctx (busy_until env l) (poll_lag env l))) in *.
    destruct (IH t1) as (Hmono & Hrest & Hall).
    rewrite fmap_cons, last_cons. simpl left.
    assert (Hfinal : default t (match last (left <$> drain_in_turn env ctx ls t1) with
                                | Some y => Some y
                                | None => Some t1
                                end)
                     = default t1 (last (left <$> drain_in_turn env ctx ls t1))).
    { destruct (last _); reflexivity. }
    rewrite Hfinal.
    split; [lia |]. split.
    + intros l' c Hl' Hc Hd. apply elem_of_cons in Hl' as [-> | Hl'].
      * specialize (Hin c Hc Hd). lia.
      * now apply (Hrest l').
    + constructor; [exact Hnil | exact Hall].
Qed.

(** X8. A request in flight on the HTTPS or HTTP listener when the
    signal arrives completes exactly when it would finish no later than
    five seconds after startup, the deadline of the contexts built
    there (or, trivially, no later than the signal): [appMain] waits for
    it until then and exits no later, however the poll timer falls.  And
    a [Shutdown] that returns no error has outlasted every request of
    its listener. *)
Theorem request_completes_iff_before_startup_deadline :
  forall cfg env l c,
    stopped (snd (appMain cfg env)) = true ->
    l ∈ listeners cfg ->
    c ∈ busy_until env l ->
    (completes (snd (appMain cfg env)) c = true
     <-> (c <= Z.max (signal_time cfg env) (startup_time cfg + 5000))%Z)
    /\ Forall (fun d => ctx_err d = false ->
                        forall c', c' ∈ busy_until env (drained d) ->
                                   (c' <= left d)%Z)
         (drains (snd (appMain cfg env))).
Proof.
  intros cfg env l c Hst Hl Hc.
  destruct (appMain_cases cfg env)
    as [(_ & Hno & _) | (_ & _ & _ & Hd & Hn & _)]; [congruence |].
  assert (Hdone : done_at (stop_ctx cfg) = (startup_time cfg + 5000)%Z).
  { unfold done_at, stop_ctx; simpl. lia. }
  destruct (drain_in_turn_bounds env (stop_ctx cfg) (rev (listeners cfg))
              (signal_time cfg env)) as (Hexit & Hwait & Hnil).
  rewrite <- Hd in Hexit, Hwait, Hnil. rewrite <- Hn, Hdone in *.
  split; [| exact Hnil].
  unfold completes. rewrite Z.leb_le. split; [lia |].
  intros Hle.
  destruct (Z.le_gt_cases c (startup_time cfg + 5000)) as [Hin | Hout]; [| lia].
  apply (Hwait l c); [| exact Hc | exact Hin].
  apply list_elem_of_In. apply -> in_rev. now apply list_elem_of_In.
Qed.

Lemma request_completes_iff_before_startup_deadline_witness :
  completes (snd (appMain cfg_both env_early_signal)) 5900 = true
  /\ drains (snd (appMain cfg_both env_early_signal))
     = [ {| drained := HTTP; entered := 3000; left := 4750; ctx_err := false |};
         {| drained := HTTPS; entered := 4750; left := 6000; ctx_err := true |} ].
Proof.
  assert (Hst : stopped (snd (appMain cfg_both env_early_signal)) = true)
    by (vm_compute; reflexivity).
  assert (Hl : HTTPS ∈ listeners cfg_both) by (vm_compute; repeat constructor).
  assert (Hc : 5900%Z ∈ busy_until env_early_signal HTTPS)
    by (simpl; repeat constructor).
  destruct (request_completes_iff_before_startup_deadline
              cfg_both env_early_signal HTTPS 5900 Hst Hl Hc) as [Hiff _].
  split; [| vm_compute; reflexivity].
  apply Hiff. vm_compute. discriminate.
Defined.

(** ** The web context *)

Lemma substring_all s : String.substring 0 (String.length s) s = s.
Proof. induction s as [| c s IH]; simpl; [reflexivity | now rewrite IH]. Qed.

Lemma substring_split s : forall n,
  n <= String.length s ->
  String.substring 0 n s +:+ String.substring n (String.length s - n) s = s.
Proof.
  induction s as [| c s IH]; intros n Hn.
  - destruct n; [reflexivity | simpl in Hn; lia].
  - destruct n as [| n].
    + simpl. now rewrite substring_all.
    + simpl in Hn. simpl.
      change (String c (String.substring 0 n s
                        +:+ String.substring n (String.length s - n) s)
              = String c s).
      f_equal. apply IH. lia.
Qed.

Lemma string_app_assoc (a b c : string) : (a +:+ b) +:+ c = a +:+ (b +:+ c).
Proof.
  induction a as [| x a IH]; [reflexivity |].
  change (String x ((a +:+ b) +:+ c) = String x (a +:+ (b +:+ c))).
  now rewrite IH.
Qed.

Lemma TrimSuffix_spec s suffix :
  (gostrings.HasSuffix s suffix = true ->
   gostrings.TrimSuffix s suffix +:+ suffix = s)
  /\ (gostrings.HasSuffix s suffix = false ->
      gostrings.TrimSuffix s suffix = s).
Proof.
  unfold gostrings.TrimSuffix. split; intros Hs; rewrite Hs; [| reflexivity].
  unfold gostrings.HasSuffix in Hs. apply andb_true_iff in Hs as [Hlen Heq].
  apply Nat.leb_le in Hlen. apply String.eqb_eq in Heq.
  pose proof (substring_split s (String.length s - String.length suffix)) as H.
  replace (String.length s - (String.length s - String.length suffix))
    with (String.length suffix) in H by lia.
  rewrite Heq in H. apply H. lia.
Qed.

(** X11. With single sign-on configured, the redirect URL is built
    from the base-url setting as written, while [BaseURL] is that setting
    without one trailing slash: they agree when the setting has no
    trailing slash, and when it has one the redirect URL is [BaseURL]
    followed by two slashes and [oauthcallback]. *)
Theorem redirect_url_keeps_trailing_slash :
  forall (v : WebSettings) (random_key : string) (webContext : WebContext),
    sso_client_id v <> "" ->
    exists oauth,
      OauthConfig (configure_web v random_key webContext) = Some oauth
      /\ RedirectURL oauth = base_url v +:+ "/oauthcallback"
      /\ (gostrings.HasSuffix (base_url v) "/" = false ->
          BaseURL (configure_web v random_key webContext) = base_url v
          /\ RedirectURL oauth
             = BaseURL (configure_web v random_key webContext) +:+ "/oauthcallback")
      /\ (gostrings.HasSuffix (base_url v) "/" = true ->
          BaseURL (configure_web v random_key webContext) +:+ "/" = base_url v
          /\ RedirectURL oauth
             = BaseURL (configure_web v random_key webContext) +:+ "//oauthcallback").
Proof.
  intros v random_key webContext Hsso.
  apply String.eqb_neq in Hsso.
  unfold configure_web. rewrite Hsso. simpl.
  eexists. split; [reflexivity |]. simpl. split; [reflexivity |].
  destruct (TrimSuffix_spec (base_url v) "/") as [Hyes Hno].
  split.
  - intros Hs. rewrite (Hno Hs). split; reflexivity.
  - intros Hs. split; [exact (Hyes Hs) |].
    rewrite <- (Hyes Hs) at 1. rewrite string_app_assoc. reflexivity.
Qed.

Lemma redirect_url_keeps_trailing_slash_witness :
  exists oauth,
    OauthConfig (configure_web web_settings_slash "k" web_context0) = Some oauth
    /\ BaseURL (configure_web web_settings_slash "k" web_context0)
       = "https://evepraisal.com"
    /\ RedirectURL oauth = "https://evepraisal.com//oauthcallback".
Proof.
  destruct (redirect_url_keeps_trailing_slash web_settings_slash "k" web_context0)
    as (oauth & Ho & Hr & _).
  { discriminate. }
  exists oauth. split; [exact Ho |]. split; [reflexivity |].
  rewrite Hr. reflexivity.
Defined.

(** X12. The management listener is closed, not drained: on shutdown
    its [Close] is the first release, it is released once, and no
    [Shutdown] call is made for it. *)
Theorem management_listener_is_closed_not_drained :
  forall cfg env,
    stopped (snd (appMain cfg env)) = true ->
    (Management ∉ drained <$> drains (snd (appMain cfg env)))
    /\ exists rest,
         released (snd (appMain cfg env)) = Server Management :: rest
         /\ (Server Management ∉ rest).
Proof.
  intros cfg env Hst.
  destruct (appMain_cases cfg env)
    as [(_ & Hno & _) | (_ & _ & _ & Hd & _ & _ & [rs Hrel] & _)];
    [congruence |].
  assert (Hnot : Management ∉ listeners cfg).
  { unfold listeners. intros Hin.
    destruct (configured (https_addr cfg)); destruct (configured (http_addr cfg));
      simpl in Hin; no_member Hin. }
  split.
  - rewrite Hd, drain_in_turn_drained. intros Hin. apply Hnot.
    apply list_elem_of_In. apply in_rev. now apply list_elem_of_In.
  - pose proof (releases_follow_one_order cfg env Hst) as [[k Hk] _].
    exists (map Server (rev (listeners cfg)) ++ StaticFetcher :: rs).
    split; [exact Hrel |].
    intros Hin.
    assert (Hfull : Server Management
                    ∈ map Server (rev (listeners cfg))
                      ++ StaticFetcher
                         :: option_list (CurrentTypeDB <$> List.last (refreshes env) None)
                      ++ [AppraisalDB; PriceFetcher; PriceDB; HTTPCache; PriceDB]).
    { unfold full_releases in Hk. rewrite Hrel in Hk.
      rewrite <- app_comm_cons in Hk. injection Hk as Hk.
      rewrite Hk. apply elem_of_app. now left. }
    apply elem_of_app in Hfull as [Hl | Hr].
    + apply list_elem_of_In, in_map_iff in Hl as (l & Hl & Hin').
      injection Hl as ->. apply Hnot.
      apply list_elem_of_In. apply in_rev. exact Hin'.
    + apply elem_of_cons in Hr as [Hr | Hr]; [discriminate |].
      apply elem_of_app in Hr as [Hr | Hr].
      * destruct (List.last (refreshes env) None); simpl in Hr.
        -- apply list_elem_of_singleton in Hr. discriminate.
        -- now apply elem_of_nil in Hr.
      * no_member Hr.
Qed.

Lemma management_listener_is_closed_not_drained_witness :
  Management ∉ drained <$> drains (snd (appMain cfg_both env_slow_http)).
Proof.
  refine (proj1 (management_listener_is_closed_not_drained cfg_both env_slow_http _)).
  vm_compute. reflexivity.
Defined.
